(** * The input system of LeX-generated scanners (chap02/input_system/input.c)

    A shallow embedding of [input.c] and the properties of its buffer,
    cursor, marks and terminator.

    Conventions of the embedding.
    - A pointer into [Start_buf] is the offset from [Start_buf], a [Z];
      [END] is the offset [BUFSIZE].  [pMark], the only pointer that can be
      [NULL], is an [option Z].
    - [unsigned char] is [Byte.byte]; an [int] is a [Z] (the line counters
      move by one per byte crossed and the pointer differences are bounded by
      [BUFSIZE], so they stay far from the limits of [int]); a [size_t] is a
      [Z] reduced modulo [2^64].
    - The file-scope variables, the [static] local of [ii_advance] and the
      descriptor table of the operating system make up the [state].
    - A function of the C file is a computation [M A = state -> outcome A]:
      it returns a value and a state, or ends the process through [ferr], or
      leaves the behaviour defined by the language (an access outside
      [Start_buf]). *)

From Stdlib Require Import ZArith List Bool Lia String.
From Stdlib Require Import Strings.Byte.
Open Scope string_scope.
Open Scope list_scope.
Import ListNotations.
Open Scope Z_scope.

(** ** Constants of the C file *)

Definition STDIN : Z := 0.
Definition MAXLOOK : Z := 16.
Definition MAXLEN : Z := 1024.
Definition BUFSIZE : Z := 3 * MAXLEN + 2 * MAXLOOK.
Definition END : Z := BUFSIZE.

Arguments STDIN : simpl never.
Arguments MAXLOOK : simpl never.
Arguments MAXLEN : simpl never.
Arguments BUFSIZE : simpl never.
Arguments END : simpl never.

(** [EOF] of <stdio.h>. *)
Definition EOF : Z := -1.

(** ['\n'] and ['\0']. *)
Definition NL : byte := x0a.
Definition NUL : byte := x00.

(** ** Conversions between the integer types *)

Definition int_of_uchar (b : byte) : Z := Z.of_N (Byte.to_N b).

Definition uchar_of_int (z : Z) : byte :=
  match Byte.of_N (Z.to_N (z mod 256)) with
  | Some b => b
  | None => NUL
  end.

Definition size_t (z : Z) : Z := z mod 2 ^ 64.

(** ** The array [Start_buf] *)

Definition load (buf : list byte) (p : Z) : option byte :=
  if p <? 0 then None else nth_error buf (Z.to_nat p).

Fixpoint upd (buf : list byte) (n : nat) (b : byte) : list byte :=
  match buf, n with
  | [], _ => []
  | _ :: t, O => b :: t
  | h :: t, S n' => h :: upd t n' b
  end.

Definition store (buf : list byte) (p : Z) (b : byte) : option (list byte) :=
  if (0 <=? p) && (p <? Z.of_nat (List.length buf))
  then Some (upd buf (Z.to_nat p) b)
  else None.

(** What a system call that fills memory writes: [data] from offset [p] on. *)
Fixpoint store_block (buf : list byte) (p : Z) (data : list byte)
  : option (list byte) :=
  match data with
  | [] => Some buf
  | b :: t =>
      match store buf p b with
      | Some buf' => store_block buf' (p + 1) t
      | None => None
      end
  end.

(** [memcpy] copies in ascending order, one byte at a time.  ISO C leaves a
    copy between overlapping objects undefined; [ii_flush] copies to the
    buffer origin from a higher address, which an ascending copy moves
    without loss. *)
Fixpoint copy_fwd (k : nat) (dst src : Z) (buf : list byte)
  : option (list byte) :=
  match k with
  | O => Some buf
  | S k' =>
      match load buf src with
      | Some b =>
          match store buf dst b with
          | Some buf' => copy_fwd k' (dst + 1) (src + 1) buf'
          | None => None
          end
      | None => None
      end
  end.

Definition memcpy_buf (dst src n : Z) (buf : list byte) : option (list byte) :=
  let n := size_t n in
  if n <=? Z.of_nat (List.length buf)
  then copy_fwd (Z.to_nat n) dst src buf
  else None.

(** ** The operating system: [open], [close] and [read] on regular files *)

Record os : Type := mkOs {
  os_files : list (string * list byte);   (* path and contents *)
  os_fds : list (Z * list byte)           (* open descriptor and unread rest *)
}.

Fixpoint lookup_file (path : string) (fs : list (string * list byte))
  : option (list byte) :=
  match fs with
  | [] => None
  | (p, d) :: t => if String.eqb p path then Some d else lookup_file path t
  end.

Fixpoint lookup_fd (fd : Z) (tab : list (Z * list byte)) : option (list byte) :=
  match tab with
  | [] => None
  | (k, d) :: t => if k =? fd then Some d else lookup_fd fd t
  end.

Fixpoint remove_fd (fd : Z) (tab : list (Z * list byte)) : list (Z * list byte) :=
  match tab with
  | [] => []
  | (k, d) :: t => if k =? fd then remove_fd fd t else (k, d) :: remove_fd fd t
  end.

Fixpoint first_free (fuel : nat) (fd : Z) (tab : list (Z * list byte)) : Z :=
  match fuel with
  | O => fd
  | S k =>
      match lookup_fd fd tab with
      | Some _ => first_free k (fd + 1) tab
      | None => fd
      end
  end.

(** [open(path, O_RDONLY)]: the lowest free descriptor above the three
    standard ones, or [-1] when there is no such file. *)
Definition sys_open (path : string) (o : os) : Z * os :=
  match lookup_file path (os_files o) with
  | Some d =>
      let fd := first_free (List.length (os_fds o)) 3 (os_fds o) in
      (fd, mkOs (os_files o) ((fd, d) :: os_fds o))
  | None => (-1, o)
  end.

Definition sys_close (fd : Z) (o : os) : os :=
  mkOs (os_files o) (remove_fd fd (os_fds o)).

(** [read(fd, _, count)]: the bytes handed over, their number and the new
    table; [-1] on a descriptor that is not open. *)
Definition sys_read (fd : Z) (count : Z) (o : os) : Z * list byte * os :=
  match lookup_fd fd (os_fds o) with
  | Some d =>
      let k := Z.to_nat (Z.min count (Z.of_nat (List.length d))) in
      (Z.of_nat (List.length (firstn k d)), firstn k d,
       mkOs (os_files o) ((fd, skipn k d) :: remove_fd fd (os_fds o)))
  | None => (-1, [], o)
  end.

(** ** The state of the module *)

Record state : Type := mkState {
  Start_buf : list byte;     (* input buffer *)
  End_buf : Z;               (* just past last character *)
  Next : Z;                  (* next input character *)
  sMark : Z;                 (* start of current lexeme *)
  eMark : Z;                 (* end of current lexeme *)
  pMark : option Z;          (* start of previous lexeme *)
  pLineno : Z;               (* line # of previous lexeme *)
  pLength : Z;               (* length of previous lexeme *)
  Input_file : Z;            (* input file handle *)
  Lineno : Z;                (* current line number *)
  Mline : Z;                 (* line # when mark_end() called *)
  Termchar : Z;              (* character overwritten by the terminator *)
  Eof_read : bool;           (* end of file has been read *)
  been_called : bool;        (* static local of ii_advance *)
  Os : os
}.

Definition set_Start_buf (v : list byte) (s : state) : state :=
  mkState v (End_buf s) (Next s) (sMark s) (eMark s) (pMark s) (pLineno s)
    (pLength s) (Input_file s) (Lineno s) (Mline s) (Termchar s) (Eof_read s)
    (been_called s) (Os s).
Definition set_End_buf (v : Z) (s : state) : state :=
  mkState (Start_buf s) v (Next s) (sMark s) (eMark s) (pMark s) (pLineno s)
    (pLength s) (Input_file s) (Lineno s) (Mline s) (Termchar s) (Eof_read s)
    (been_called s) (Os s).
Definition set_Next (v : Z) (s : state) : state :=
  mkState (Start_buf s) (End_buf s) v (sMark s) (eMark s) (pMark s) (pLineno s)
    (pLength s) (Input_file s) (Lineno s) (Mline s) (Termchar s) (Eof_read s)
    (been_called s) (Os s).
Definition set_sMark (v : Z) (s : state) : state :=
  mkState (Start_buf s) (End_buf s) (Next s) v (eMark s) (pMark s) (pLineno s)
    (pLength s) (Input_file s) (Lineno s) (Mline s) (Termchar s) (Eof_read s)
    (been_called s) (Os s).
Definition set_eMark (v : Z) (s : state) : state :=
  mkState (Start_buf s) (End_buf s) (Next s) (sMark s) v (pMark s) (pLineno s)
    (pLength s) (Input_file s) (Lineno s) (Mline s) (Termchar s) (Eof_read s)
    (been_called s) (Os s).
Definition set_pMark (v : option Z) (s : state) : state :=
  mkState (Start_buf s) (End_buf s) (Next s) (sMark s) (eMark s) v (pLineno s)
    (pLength s) (Input_file s) (Lineno s) (Mline s) (Termchar s) (Eof_read s)
    (been_called s) (Os s).
Definition set_pLineno (v : Z) (s : state) : state :=
  mkState (Start_buf s) (End_buf s) (Next s) (sMark s) (eMark s) (pMark s) v
    (pLength s) (Input_file s) (Lineno s) (Mline s) (Termchar s) (Eof_read s)
    (been_called s) (Os s).
Definition set_pLength (v : Z) (s : state) : state :=
  mkState (Start_buf s) (End_buf s) (Next s) (sMark s) (eMark s) (pMark s)
    (pLineno s) v (Input_file s) (Lineno s) (Mline s) (Termchar s) (Eof_read s)
    (been_called s) (Os s).
Definition set_Input_file (v : Z) (s : state) : state :=
  mkState (Start_buf s) (End_buf s) (Next s) (sMark s) (eMark s) (pMark s)
    (pLineno s) (pLength s) v (Lineno s) (Mline s) (Termchar s) (Eof_read s)
    (been_called s) (Os s).
Definition set_Lineno (v : Z) (s : state) : state :=
  mkState (Start_buf s) (End_buf s) (Next s) (sMark s) (eMark s) (pMark s)
    (pLineno s) (pLength s) (Input_file s) v (Mline s) (Termchar s) (Eof_read s)
    (been_called s) (Os s).
Definition set_Mline (v : Z) (s : state) : state :=
  mkState (Start_buf s) (End_buf s) (Next s) (sMark s) (eMark s) (pMark s)
    (pLineno s) (pLength s) (Input_file s) (Lineno s) v (Termchar s) (Eof_read s)
    (been_called s) (Os s).
Definition set_Termchar (v : Z) (s : state) : state :=
  mkState (Start_buf s) (End_buf s) (Next s) (sMark s) (eMark s) (pMark s)
    (pLineno s) (pLength s) (Input_file s) (Lineno s) (Mline s) v (Eof_read s)
    (been_called s) (Os s).
Definition set_Eof_read (v : bool) (s : state) : state :=
  mkState (Start_buf s) (End_buf s) (Next s) (sMark s) (eMark s) (pMark s)
    (pLineno s) (pLength s) (Input_file s) (Lineno s) (Mline s) (Termchar s) v
    (been_called s) (Os s).
Definition set_been_called (v : bool) (s : state) : state :=
  mkState (Start_buf s) (End_buf s) (Next s) (sMark s) (eMark s) (pMark s)
    (pLineno s) (pLength s) (Input_file s) (Lineno s) (Mline s) (Termchar s)
    (Eof_read s) v (Os s).
Definition set_Os (v : os) (s : state) : state :=
  mkState (Start_buf s) (End_buf s) (Next s) (sMark s) (eMark s) (pMark s)
    (pLineno s) (pLength s) (Input_file s) (Lineno s) (Mline s) (Termchar s)
    (Eof_read s) (been_called s) v.

Arguments set_Start_buf v s /.
Arguments set_End_buf v s /.
Arguments set_Next v s /.
Arguments set_sMark v s /.
Arguments set_eMark v s /.
Arguments set_pMark v s /.
Arguments set_pLineno v s /.
Arguments set_pLength v s /.
Arguments set_Input_file v s /.
Arguments set_Lineno v s /.
Arguments set_Mline v s /.
Arguments set_Termchar v s /.
Arguments set_Eof_read v s /.
Arguments set_been_called v s /.
Arguments set_Os v s /.

(** The initializers of the file-scope variables; [Start_buf] has static
    storage and starts zeroed. *)
Definition initial (o : os) : state :=
  mkState (repeat NUL (Z.to_nat BUFSIZE)) END END END END None 0 0 STDIN 1 1 0
    false false o.

(** ** Computations *)

Inductive outcome (A : Type) : Type :=
| Ret (v : A) (s : state)     (* the call returns *)
| Fatal (msg : string)        (* ferr: the process ends *)
| Undefined.                  (* an access outside the array *)
Arguments Ret {A} v s.
Arguments Fatal {A} msg.
Arguments Undefined {A}.

Definition M (A : Type) : Type := state -> outcome A.

Definition ret {A : Type} (v : A) : M A := fun s => Ret v s.

Definition bind {A B : Type} (m : M A) (f : A -> M B) : M B :=
  fun s =>
    match m s with
    | Ret v s' => f v s'
    | Fatal msg => Fatal msg
    | Undefined => Undefined
    end.

Notation "x <- m ;; k" := (bind m (fun x => k))
  (at level 61, m at next level, right associativity).
Notation "m ;; k" := (bind m (fun _ => k))
  (at level 61, right associativity).

Definition gets {A : Type} (f : state -> A) : M A := fun s => Ret (f s) s.
Definition modify (f : state -> state) : M unit := fun s => Ret tt (f s).
Definition undefined {A : Type} : M A := fun _ => Undefined.

(** Modelled from the spec: [ferr] is declared in tools.h, which is not part
    of the sources at hand; it reports a diagnostic and terminates the
    process, so nothing after it runs. *)
Definition ferr {A : Type} (msg : string) : M A := fun _ => Fatal msg.

(** [*p] as an rvalue and [*p = b]. *)
Definition deref (p : Z) : M byte :=
  fun s =>
    match load (Start_buf s) p with
    | Some b => Ret b s
    | None => Undefined
    end.

Definition assign (p : Z) (b : byte) : M unit :=
  fun s =>
    match store (Start_buf s) p b with
    | Some buf => Ret tt (set_Start_buf buf s)
    | None => Undefined
    end.

Definition memcpy (dst src n : Z) : M unit :=
  fun s =>
    match memcpy_buf dst src n (Start_buf s) with
    | Some buf => Ret tt (set_Start_buf buf s)
    | None => Undefined
    end.

(** [read(Input_file, starting_at, need)] *)
Definition read (fd starting_at need : Z) : M Z :=
  fun s =>
    let '(got, data, o) := sys_read fd need (Os s) in
    match store_block (Start_buf s) starting_at data with
    | Some buf => Ret got (set_Os o (set_Start_buf buf s))
    | None => Undefined
    end.

(** ** The macros on the state *)

Definition DANGER (s : state) : Z := End_buf s - MAXLOOK.
Definition NO_MORE_CHARS (s : state) : bool :=
  Eof_read s && (End_buf s <=? Next s).

(** ** Initialization *)

(** [ii_newfile(filename)]; [None] is the [NULL] file name. *)
Definition ii_newfile (filename : option string) : M Z :=
  fd <- match filename with
        | None => ret STDIN
        | Some path =>
            fun s => let '(fd, o) := sys_open path (Os s) in Ret fd (set_Os o s)
        end ;;
  (if negb (fd =? -1) then
     old <- gets Input_file ;;
     (if negb (old =? STDIN)
      then modify (fun s => set_Os (sys_close old (Os s)) s)
      else ret tt) ;;
     modify (set_Input_file fd) ;;
     modify (set_Eof_read false) ;;
     modify (set_Next END) ;;
     modify (set_sMark END) ;;
     modify (set_eMark END) ;;
     modify (set_End_buf END) ;;
     modify (set_Lineno 1) ;;
     modify (set_Mline 1)
   else ret tt) ;;
  ret fd.

(** ** Access routines and marker movement *)

Definition ii_text : M Z := gets sMark.
Definition ii_length : M Z := gets (fun s => eMark s - sMark s).
Definition ii_lineno : M Z := gets Lineno.
Definition ii_ptext : M (option Z) := gets pMark.
Definition ii_plength : M Z := gets pLength.
Definition ii_plineno : M Z := gets pLineno.

Definition ii_mark_start : M Z :=
  modify (fun s => set_Mline (Lineno s) s) ;;
  modify (fun s => set_sMark (Next s) s) ;;
  modify (fun s => set_eMark (sMark s) s) ;;
  gets sMark.

Definition ii_mark_end : M Z :=
  modify (fun s => set_Mline (Lineno s) s) ;;
  modify (fun s => set_eMark (Next s) s) ;;
  gets eMark.

Definition ii_move_start : M (option Z) :=
  stuck <- gets (fun s => eMark s <=? sMark s) ;;
  if stuck then ret None
  else
    modify (fun s => set_sMark (sMark s + 1) s) ;;
    p <- gets sMark ;;
    ret (Some p).

Definition ii_to_mark : M Z :=
  modify (fun s => set_Lineno (Mline s) s) ;;
  modify (fun s => set_Next (eMark s) s) ;;
  gets Next.

Definition ii_mark_prev : M (option Z) :=
  modify (fun s => set_pMark (Some (sMark s)) s) ;;
  modify (fun s => set_pLineno (Lineno s) s) ;;
  modify (fun s => set_pLength (eMark s - sMark s) s) ;;
  gets pMark.

(** ** Filling and flushing *)

Definition ii_fillbuf (starting_at : Z) : M Z :=
  let need := size_t (Z.quot (END - starting_at) MAXLEN * MAXLEN) in
  if need <? 0 then
    ferr "INTERNAL ERROR (ii_fillbuf): Bad read-request starting addr."
  else if need =? 0 then ret 0
  else
    fd <- gets Input_file ;;
    got <- read fd starting_at need ;;
    if got =? -1 then ferr "Can't read input file."
    else
      modify (set_End_buf (starting_at + got)) ;;
      (if got =? 0 then modify (set_Eof_read true) else ret tt) ;;
      ret got.

(** [pMark ? min(sMark, pMark) : sMark] *)
Definition left_edge_of (s : state) : Z :=
  match pMark s with
  | Some p => Z.min (sMark s) p
  | None => sMark s
  end.

(** The block of [ii_flush] that moves the text from [left_edge] on to the
    origin of the buffer, refills the tail and rebases the pointers. *)
Definition compact (left_edge : Z) : M Z :=
  let shift_amount := left_edge - 0 in
  end_buf <- gets End_buf ;;
  let copy_amount := end_buf - left_edge in
  memcpy 0 left_edge copy_amount ;;
  got <- ii_fillbuf (0 + copy_amount) ;;
  (if got =? 0
   then ferr "INTERNAL ERROR, ii_flush: Buffer full, can't read."
   else ret tt) ;;
  modify (fun s =>
            match pMark s with
            | Some p => set_pMark (Some (p - shift_amount)) s
            | None => s
            end) ;;
  modify (fun s => set_sMark (sMark s - shift_amount) s) ;;
  modify (fun s => set_eMark (eMark s - shift_amount) s) ;;
  modify (fun s => set_Next (Next s - shift_amount) s) ;;
  ret 1.

Definition ii_flush (force : bool) : M Z :=
  nomore <- gets NO_MORE_CHARS ;;
  if nomore then ret 0
  else
    eof <- gets Eof_read ;;
    if eof then ret 1
    else
      danger <- gets (fun s => DANGER s <=? Next s) ;;
      if danger || force then
        left_edge <- gets left_edge_of ;;
        let shift_amount := left_edge - 0 in
        if shift_amount <? MAXLEN then
          if negb force then ret (-1)
          else
            left_edge <- ii_mark_start ;;
            ii_mark_prev ;;
            compact left_edge
        else compact left_edge
      else ret 1.

(** ** The advance function *)

(** The body of [if (!been_called)]: a newline pushed in front of the first
    line, for the start-of-line anchor. *)
Definition seed_newline : M unit :=
  modify (set_eMark (END - 1)) ;;
  modify (set_sMark (END - 1)) ;;
  modify (set_Next (END - 1)) ;;
  assign (END - 1) NL ;;
  modify (fun s => set_Lineno (Lineno s - 1) s) ;;
  modify (fun s => set_Mline (Mline s - 1) s) ;;
  modify (set_been_called true).

(** The last two statements: count the line, return the byte at [Next] and
    step over it. *)
Definition consume : M Z :=
  p <- gets Next ;;
  c <- deref p ;;
  (if Byte.eqb c NL
   then modify (fun s => set_Lineno (Lineno s + 1) s)
   else ret tt) ;;
  modify (set_Next (p + 1)) ;;
  ret (int_of_uchar c).

(** The statements after the once-only block: end of input, the flush when
    the cursor is in the danger zone, and the byte itself. *)
Definition fetch : M Z :=
  nomore <- gets NO_MORE_CHARS ;;
  if nomore then ret 0
  else
    eof <- gets Eof_read ;;
    r <- (if negb eof then ii_flush false else ret 0) ;;
    if negb eof && (r <? 0) then ret (-1)
    else consume.

Definition ii_advance : M Z :=
  called <- gets been_called ;;
  (if negb called then seed_newline else ret tt) ;;
  fetch.

(** ** Lookahead and pushback *)

Definition ii_look (n : Z) : M Z :=
  p <- gets (fun s => Next s + (n - 1)) ;;
  past <- gets (fun s => Eof_read s && (End_buf s <=? p)) ;;
  if past then ret EOF
  else
    outside <- gets (fun s => (p <? 0) || (End_buf s <=? p)) ;;
    if outside then ret 0
    else c <- deref p ;; ret (int_of_uchar c).

(** The [while] loop of [ii_pusback]; [k] counts the times [--n >= 0] can
    still hold. *)
Fixpoint pusback_loop (k : nat) : M unit :=
  match k with
  | O => ret tt
  | S k' =>
      more <- gets (fun s => sMark s <? Next s) ;;
      if more then
        modify (fun s => set_Next (Next s - 1) s) ;;
        p <- gets Next ;;
        c <- deref p ;;
        (if Byte.eqb c NL || Byte.eqb c NUL
         then modify (fun s => set_Lineno (Lineno s - 1) s)
         else ret tt) ;;
        pusback_loop k'
      else ret tt
  end.

Definition ii_pusback (n : Z) : M Z :=
  pusback_loop (Z.to_nat n) ;;
  before <- gets (fun s => Next s <? eMark s) ;;
  (if before then
     modify (fun s => set_eMark (Next s) s) ;;
     modify (fun s => set_Mline (Lineno s) s)
   else ret tt) ;;
  gets (fun s => if sMark s <? Next s then 1 else 0).

(** ** Support for null-terminated strings *)

Definition ii_term : M unit :=
  p <- gets Next ;;
  c <- deref p ;;
  modify (set_Termchar (int_of_uchar c)) ;;
  assign p NUL.

Definition ii_unterm : M unit :=
  t <- gets Termchar ;;
  if negb (t =? 0) then
    p <- gets Next ;;
    assign p (uchar_of_int t) ;;
    modify (set_Termchar 0)
  else ret tt.

(** [ii_input] and [ii_uninput] are declared [int] and end without a
    [return]: a caller gets no value from them. *)
Definition ii_input : M unit :=
  t <- gets Termchar ;;
  if negb (t =? 0) then
    ii_unterm ;;
    ii_advance ;;
    ii_mark_end ;;
    ii_term
  else
    ii_advance ;;
    ii_mark_end ;;
    ret tt.

Definition ii_uninput (c : byte) : M unit :=
  t <- gets Termchar ;;
  if negb (t =? 0) then
    ii_unterm ;;
    ok <- ii_pusback 1 ;;
    (if negb (ok =? 0) then p <- gets Next ;; assign p c else ret tt) ;;
    ii_term
  else
    ok <- ii_pusback 1 ;;
    (if negb (ok =? 0) then p <- gets Next ;; assign p c else ret tt).

Definition ii_looahead (n : Z) : M Z :=
  t <- gets Termchar ;;
  if (n =? 1) && negb (t =? 0) then ret t else ii_look n.

Definition ii_flushbuf : M Z :=
  t <- gets Termchar ;;
  (if negb (t =? 0) then ii_unterm else ret tt) ;;
  ii_flush true.

(** ** Running a scanner's calls *)

(** [n] successive calls of [ii_advance] and the values they return. *)
Fixpoint advances (n : nat) : M (list Z) :=
  match n with
  | O => ret []
  | S n' =>
      c <- ii_advance ;;
      cs <- advances n' ;;
      ret (c :: cs)
  end.

(** [n] successive calls of [ii_move_start] and how many of them moved the
    mark. *)
Fixpoint move_starts (n : nat) : M nat :=
  match n with
  | O => ret 0%nat
  | S n' =>
      r <- ii_move_start ;;
      k <- move_starts n' ;;
      ret (match r with Some _ => S k | None => k end)
  end.

(** The process with [input] waiting on standard input and [files] on disk. *)
Definition boot (input : list byte) (files : list (string * list byte)) : state :=
  initial (mkOs files [(STDIN, input)]).

Definition value {A : Type} (o : outcome A) : option A :=
  match o with
  | Ret v _ => Some v
  | _ => None
  end.

Definition after {A : Type} (o : outcome A) : option state :=
  match o with
  | Ret _ s => Some s
  | _ => None
  end.

(** ** The calls a scanner can make *)

Inductive call : Type :=
| Newfile (filename : option string)
| Text | Length | LineNumber | PrevText | PrevLength | PrevLineNumber
| MarkStart | MarkEnd | MoveStart | ToMark | MarkPrev
| Advance
| Flush (force : bool)
| Look (n : Z)
| Pusback (n : Z)
| Term | Unterm
| Input
| Uninput (c : byte)
| Looahead (n : Z)
| Flushbuf.

(** The state a call returns in, if it returns. *)
Definition exec (c : call) (s : state) : option state :=
  match c with
  | Newfile f => after (ii_newfile f s)
  | Text => after (ii_text s)
  | Length => after (ii_length s)
  | LineNumber => after (ii_lineno s)
  | PrevText => after (ii_ptext s)
  | PrevLength => after (ii_plength s)
  | PrevLineNumber => after (ii_plineno s)
  | MarkStart => after (ii_mark_start s)
  | MarkEnd => after (ii_mark_end s)
  | MoveStart => after (ii_move_start s)
  | ToMark => after (ii_to_mark s)
  | MarkPrev => after (ii_mark_prev s)
  | Advance => after (ii_advance s)
  | Flush force => after (ii_flush force s)
  | Look n => after (ii_look n s)
  | Pusback n => after (ii_pusback n s)
  | Term => after (ii_term s)
  | Unterm => after (ii_unterm s)
  | Input => after (ii_input s)
  | Uninput c => after (ii_uninput c s)
  | Looahead n => after (ii_looahead n s)
  | Flushbuf => after (ii_flushbuf s)
  end.

(** The states a process gets into by calling the functions of the module,
    [ii_fillbuf] apart, which only [ii_flush] calls. *)
Inductive reachable : state -> Prop :=
| reachable_initial (o : os) : reachable (initial o)
| reachable_call (s : state) (c : call) (s' : state) :
    reachable s -> exec c s = Some s' -> reachable s'.

(** ** The invariant of the pointers, as a predicate *)

(** The array has its declared size, every pointer lies in the array or just
    past it, and the marks and the cursor are ordered. *)
Definition inv (s : state) : Prop :=
  List.length (Start_buf s) = Z.to_nat BUFSIZE /\
  0 <= sMark s <= eMark s /\
  eMark s <= Next s <= BUFSIZE /\
  0 <= End_buf s <= BUFSIZE /\
  (forall p, pMark s = Some p -> 0 <= p <= BUFSIZE).

(** A computation keeps the invariant, and does not turn the end-of-file
    flag on. *)
Definition keeps {A : Type} (m : M A) : Prop :=
  forall s v s',
    inv s -> m s = Ret v s' ->
    inv s' /\ (Eof_read s = false -> Eof_read s' = false).

(** ** Reading the array as text *)

(** The [k] bytes of the array from offset [p] on. *)
Fixpoint window (buf : list byte) (p : Z) (k : nat) : list byte :=
  match k with
  | O => []
  | S k' =>
      match load buf p with
      | Some b => b :: window buf (p + 1) k'
      | None => []
      end
  end.

(** How many bytes of a text pass a test. *)
Definition count (f : byte -> bool) (l : list byte) : Z :=
  Z.of_nat (List.length (filter f l)).

Arguments count : simpl never.

(** The tests of [ii_advance] and of [ii_pusback] on a byte. *)
Definition is_newline (c : byte) : bool := Byte.eqb c NL.
Definition newline_or_null (c : byte) : bool := Byte.eqb c NL || Byte.eqb c NUL.

(** The state a call leaves behind (the state it started in when the call
    does not return). *)
Definition run {A : Type} (m : M A) (s : state) : state :=
  match m s with
  | Ret _ s' => s'
  | _ => s
  end.

(** ** Compaction, in the words of the specification *)

(** The marks after a forced flush has given up the saved lexemes. *)
Definition marks_reset (s : state) : state :=
  run (ii_mark_start ;; ii_mark_prev) s.


(** ** Concrete runs *)

(** The stream "ab\ncd". *)
Definition ab_cd : list byte := [x61; x62; x0a; x63; x64].

(** A scanner on standard input "ab\ncd" reads one character, marks the
    previous lexeme and terminates the text; a file "next" holding "x" is
    on disk. *)
Definition marked_and_terminated : state :=
  run (ii_advance ;; ii_mark_prev ;; ii_term) (boot ab_cd [("next", [x78])]).

(** ... and then switches to that file. *)
Definition switched : state :=
  run (ii_newfile (Some "next")) marked_and_terminated.

(** The first [ii_advance] on "ab\ncd": the state between its once-only
    block and its flush, the state after the flush, and the state it leaves. *)
Definition seeded : state := run seed_newline (boot ab_cd []).
Definition first_fill : state := run (ii_flush false) seeded.
Definition first_read : state := run ii_advance (boot ab_cd []).


(** The same scanner after its first character, with the file on disk. *)
Definition before_switch : state :=
  run ii_advance (boot ab_cd [("next", [x78])]).
Definition after_switch : state :=
  run (ii_newfile (Some "next")) before_switch.

(** A text of 32 bytes that starts with a null byte; the scanner has read
    the pushed newline and marked the start of a lexeme. *)
Definition null_first : list byte := x00 :: repeat x61 31.
Definition at_null : state :=
  run (ii_advance ;; ii_mark_start) (boot null_first []).

(** ... and has read the null byte; then pushed it back; then read it
    again. *)
Definition past_null : state := run (advances 1) at_null.

(** A text of 32 bytes with a newline and a null byte in it; the scanner has
    read the pushed newline, marked the start of a lexeme and read four
    characters. *)
Definition text_with_breaks : list byte :=
  [x61; x0a; x00; x62] ++ repeat x63 28.
Definition four_read : state :=
  run (ii_advance ;; ii_mark_start ;; advances 4) (boot text_with_breaks []).


(** ... and marked the end of the lexeme. *)
Definition four_marked : state := run ii_mark_end four_read.

(** A text of 4000 bytes; the scanner has read the pushed newline and a
    thousand characters without marking anything, and then forces a
    flush. *)
Definition long_text : list byte := repeat x61 4000.
Definition deep : state :=
  run (ii_advance ;; advances 1000) (boot long_text []).
Definition deep_flushed : state := run (ii_flush true) deep.

(** ** The specification's sentences, word for word *)




(** Once-only newline: after a switch the first [ii_advance] returns the
    first byte of the new stream and the line number counts from 1. *)
Definition first_byte_after_switch (filename : option string) (s : state)
  : Prop :=
  forall fd s1 b rest,
    ii_newfile filename s = Ret fd s1 -> fd <> -1 ->
    lookup_fd fd (os_fds (Os s1)) = Some (b :: rest) ->
    exists s2,
      ii_advance s1 = Ret (int_of_uchar b) s2 /\
      Lineno s2 = (if is_newline b then 2 else 1).




(** Stream switch: the line number is 1, cursor, marks and extent are at the
    initial position, the end-of-file flag is off, and the previous-lexeme
    mark with its snapshots and the terminator are cleared. *)
Definition newfile_clears_everything (filename : option string) (s : state)
  : Prop :=
  forall fd s',
    ii_newfile filename s = Ret fd s' -> fd <> -1 ->
    Lineno s' = 1 /\ Next s' = END /\ sMark s' = END /\ eMark s' = END /\
    End_buf s' = END /\ Eof_read s' = false /\
    pMark s' = None /\ pLineno s' = 0 /\ pLength s' = 0 /\ Termchar s' = 0.

(** * Properties *)

(** ** The array *)

Lemma upd_length (buf : list byte) (n : nat) (b : byte) :
  List.length (upd buf n b) = List.length buf.
Proof.
  revert n; induction buf as [|h t IH]; intros [|n]; simpl; auto.
Qed.

Lemma nth_error_upd (buf : list byte) (n m : nat) (b : byte) :
  (n < List.length buf)%nat ->
  nth_error (upd buf n b) m = if Nat.eqb m n then Some b else nth_error buf m.
Proof.
  revert n m; induction buf as [|h t IH]; intros n m Hn; simpl in Hn.
  - lia.
  - destruct n as [|n], m as [|m]; simpl; auto.
    apply IH; lia.
Qed.

Lemma load_inside (buf : list byte) (p : Z) :
  0 <= p < Z.of_nat (List.length buf) -> exists b, load buf p = Some b.
Proof.
  intros Hp; unfold load.
  destruct (p <? 0) eqn:E; [lia|].
  destruct (nth_error buf (Z.to_nat p)) eqn:N; eauto.
  apply nth_error_None in N; lia.
Qed.

Lemma load_bounds (buf : list byte) (p : Z) (b : byte) :
  load buf p = Some b -> 0 <= p < Z.of_nat (List.length buf).
Proof.
  unfold load; destruct (p <? 0) eqn:E; [discriminate|].
  intros N.
  assert (nth_error buf (Z.to_nat p) <> None) as H by congruence.
  apply nth_error_Some in H; lia.
Qed.

Lemma store_inside (buf : list byte) (p : Z) (b : byte) :
  0 <= p < Z.of_nat (List.length buf) ->
  store buf p b = Some (upd buf (Z.to_nat p) b).
Proof.
  intros Hp; unfold store.
  destruct (0 <=? p) eqn:E1; [|lia].
  destruct (p <? Z.of_nat (List.length buf)) eqn:E2; [reflexivity|lia].
Qed.

Lemma store_bounds (buf buf' : list byte) (p : Z) (b : byte) :
  store buf p b = Some buf' ->
  0 <= p < Z.of_nat (List.length buf) /\ buf' = upd buf (Z.to_nat p) b.
Proof.
  unfold store.
  destruct (0 <=? p) eqn:E1; simpl; [|discriminate].
  destruct (p <? Z.of_nat (List.length buf)) eqn:E2; [|discriminate].
  intros H; inversion H; split; [lia|reflexivity].
Qed.

Lemma store_length (buf buf' : list byte) (p : Z) (b : byte) :
  store buf p b = Some buf' -> List.length buf' = List.length buf.
Proof.
  intros H; apply store_bounds in H as [_ ->]; apply upd_length.
Qed.

Lemma load_store (buf buf' : list byte) (p q : Z) (b : byte) :
  store buf p b = Some buf' ->
  load buf' q = if q =? p then Some b else load buf q.
Proof.
  intros H; apply store_bounds in H as [Hp ->].
  unfold load.
  destruct (q <? 0) eqn:Q.
  - destruct (q =? p) eqn:E; [lia|reflexivity].
  - rewrite nth_error_upd by lia.
    destruct (q =? p) eqn:E.
    + assert (q = p) by lia; subst; rewrite Nat.eqb_refl; reflexivity.
    + destruct (Nat.eqb (Z.to_nat q) (Z.to_nat p)) eqn:E'; [|reflexivity].
      apply Nat.eqb_eq in E'; lia.
Qed.

Lemma load_store_same (buf buf' : list byte) (p : Z) (b : byte) :
  store buf p b = Some buf' -> load buf' p = Some b.
Proof.
  intros H; rewrite (load_store _ _ _ p _ H), Z.eqb_refl; reflexivity.
Qed.

Lemma load_store_other (buf buf' : list byte) (p q : Z) (b : byte) :
  store buf p b = Some buf' -> q <> p -> load buf' q = load buf q.
Proof.
  intros H Hq; rewrite (load_store _ _ _ q _ H).
  destruct (q =? p) eqn:E; [lia|reflexivity].
Qed.

(** An ascending copy towards a lower address behaves as [memmove]. *)
Lemma copy_fwd_spec (k : nat) :
  forall dst src buf buf',
    copy_fwd k dst src buf = Some buf' ->
    dst <= src ->
    List.length buf' = List.length buf /\
    (forall i, 0 <= i < Z.of_nat k -> load buf' (dst + i) = load buf (src + i)) /\
    (forall q, q < dst \/ dst + Z.of_nat k <= q -> load buf' q = load buf q).
Proof.
  induction k as [|k IH]; intros dst src buf buf' H Hle.
  - simpl in H; inversion H; subst; repeat split; auto; intros; lia.
  - simpl in H.
    destruct (load buf src) as [b|] eqn:L; [|discriminate].
    destruct (store buf dst b) as [buf1|] eqn:S1; [|discriminate].
    destruct (IH _ _ _ _ H ltac:(lia)) as (Hlen & Hin & Hout).
    split; [rewrite Hlen; eapply store_length; eauto|].
    split.
    + intros i Hi.
      destruct (Z.eq_dec i 0) as [->|Hi0].
      * rewrite !Z.add_0_r, Hout by lia.
        rewrite (load_store_same _ _ _ _ S1); auto.
      * replace (dst + i) with (dst + 1 + (i - 1)) by lia.
        rewrite Hin by lia.
        rewrite (load_store_other _ _ _ _ _ S1) by lia.
        f_equal; lia.
    + intros q Hq.
      rewrite Hout by lia.
      apply (load_store_other _ _ _ _ _ S1); lia.
Qed.

Lemma copy_fwd_total (k : nat) :
  forall dst src buf,
    0 <= dst -> dst <= src ->
    src + Z.of_nat k <= Z.of_nat (List.length buf) ->
    exists buf', copy_fwd k dst src buf = Some buf'.
Proof.
  induction k as [|k IH]; intros dst src buf H0 Hle Hb; simpl.
  - eauto.
  - destruct (load_inside buf src ltac:(lia)) as [b ->].
    rewrite store_inside by lia.
    apply IH; try lia.
    rewrite upd_length; lia.
Qed.

Lemma store_block_spec (data : list byte) :
  forall buf p buf',
    store_block buf p data = Some buf' ->
    List.length buf' = List.length buf /\
    (forall i, (i < List.length data)%nat ->
               load buf' (p + Z.of_nat i) = nth_error data i) /\
    (forall q, q < p \/ p + Z.of_nat (List.length data) <= q ->
               load buf' q = load buf q).
Proof.
  induction data as [|b t IH]; intros buf p buf' H; simpl in H.
  - inversion H; subst; repeat split; auto; simpl; intros; lia.
  - destruct (store buf p b) as [buf1|] eqn:S1; [|discriminate].
    destruct (IH _ _ _ H) as (Hlen & Hin & Hout).
    split; [rewrite Hlen; eapply store_length; eauto|].
    split.
    + intros [|i] Hi; simpl in *.
      * rewrite Z.add_0_r, Hout by lia.
        apply (load_store_same _ _ _ _ S1).
      * replace (p + Z.pos (Pos.of_succ_nat i)) with (p + 1 + Z.of_nat i) by lia.
        apply Hin; lia.
    + intros q Hq; simpl List.length in Hq.
      rewrite Hout by lia.
      apply (load_store_other _ _ _ _ _ S1); lia.
Qed.

Lemma store_block_total (data : list byte) :
  forall buf p,
    0 <= p -> p + Z.of_nat (List.length data) <= Z.of_nat (List.length buf) ->
    exists buf', store_block buf p data = Some buf'.
Proof.
  induction data as [|b t IH]; intros buf p H0 Hb; simpl in *.
  - eauto.
  - rewrite store_inside by lia.
    apply IH; try lia.
    rewrite upd_length; lia.
Qed.

Lemma upd_same (buf : list byte) (n : nat) (b : byte) :
  nth_error buf n = Some b -> upd buf n b = buf.
Proof.
  revert n; induction buf as [|h t IH]; intros [|n] H; simpl in *;
    try discriminate.
  - inversion H; reflexivity.
  - f_equal; auto.
Qed.

Lemma upd_upd (buf : list byte) (n : nat) (a b : byte) :
  upd (upd buf n a) n b = upd buf n b.
Proof.
  revert n; induction buf as [|h t IH]; intros [|n]; simpl; auto.
  f_equal; auto.
Qed.

(** ** The integer conversions *)

Lemma int_of_uchar_range (b : byte) : 0 <= int_of_uchar b <= 255.
Proof.
  unfold int_of_uchar; pose proof (Byte.to_N_bounded b); lia.
Qed.

Lemma uchar_of_int_of_uchar (b : byte) : uchar_of_int (int_of_uchar b) = b.
Proof.
  unfold uchar_of_int.
  pose proof (int_of_uchar_range b) as R.
  rewrite Z.mod_small by lia.
  unfold int_of_uchar; rewrite N2Z.id, Byte.of_to_N; reflexivity.
Qed.

Lemma int_of_uchar_zero (b : byte) : int_of_uchar b = 0 -> b = NUL.
Proof.
  intros H; rewrite <- (uchar_of_int_of_uchar b), H; reflexivity.
Qed.

(** ** The invariant of the pointers *)

Lemma BUFSIZE_val : BUFSIZE = 3104.
Proof. reflexivity. Qed.

Lemma inv_length (s : state) :
  inv s -> Z.of_nat (List.length (Start_buf s)) = BUFSIZE.
Proof.
  intros (H & _); rewrite H, BUFSIZE_val; reflexivity.
Qed.

Lemma initial_inv (o : os) : inv (initial o).
Proof.
  split; [apply repeat_length|].
  unfold initial; cbn [sMark eMark Next End_buf pMark].
  repeat split; try (unfold END; rewrite BUFSIZE_val; lia); discriminate.
Qed.

(** ** Null termination *)

Section Terminator.

Variable s : state.
Hypothesis Hbuf : Z.of_nat (List.length (Start_buf s)) = BUFSIZE.
Hypothesis Hnext : 0 <= Next s < BUFSIZE.

Lemma ii_term_runs :
  exists b,
    load (Start_buf s) (Next s) = Some b /\
    ii_term s =
      Ret tt (set_Start_buf (upd (Start_buf s) (Z.to_nat (Next s)) NUL)
                (set_Termchar (int_of_uchar b) s)).
Proof.
  destruct (load_inside (Start_buf s) (Next s) ltac:(lia)) as [b L].
  exists b; split; [assumption|].
  unfold ii_term, bind, gets, deref, modify, assign; rewrite L; simpl.
  rewrite store_inside by lia; reflexivity.
Qed.

End Terminator.


Lemma load_nth_error (buf : list byte) (p : Z) (b : byte) :
  load buf p = Some b -> nth_error buf (Z.to_nat p) = Some b.
Proof.
  unfold load; destruct (p <? 0); [discriminate|auto].
Qed.



(** ** Switching streams *)

Lemma set_Os_same (s : state) : set_Os (Os s) s = s.
Proof. destruct s; reflexivity. Qed.

Lemma ii_newfile_returns (filename : option string) (s : state) :
  exists fd s', ii_newfile filename s = Ret fd s' /\ (fd = -1 -> s' = s).
Proof.
  unfold ii_newfile, bind, gets, modify, ret.
  destruct filename as [path|].
  - unfold sys_open.
    destruct (lookup_file path (os_files (Os s))) as [d|].
    + match goal with
      | |- context [first_free ?n ?k ?t] => set (fd := first_free n k t)
      end.
      destruct (fd =? -1) eqn:E; simpl.
      * eexists _, _; split; [reflexivity|]. intros _.
        (* the descriptor table has grown although the handle is refused *)
        exfalso.
        assert (forall n k t, 3 <= k -> 3 <= first_free n k t) as F.
        { clear. induction n as [|n IH]; intros k t Hk; simpl; [lia|].
          destruct (lookup_fd k t); [apply IH; lia|lia]. }
        specialize (F (List.length (os_fds (Os s))) 3 (os_fds (Os s))
                      ltac:(lia)).
        fold fd in F. lia.
      * destruct (Input_file s =? STDIN); simpl;
          eexists _, _; (split; [reflexivity|]); intros ->; discriminate.
    + simpl. eexists _, _; split; [reflexivity|].
      intros _; apply set_Os_same.
  - simpl.
    destruct (Input_file s =? STDIN); simpl;
      eexists _, _; (split; [reflexivity|]); unfold STDIN; intros; lia.
Qed.

Lemma ii_newfile_fields
  (filename : option string) (s : state) (fd : Z) (s' : state) :
  ii_newfile filename s = Ret fd s' ->
  fd <> -1 ->
  Input_file s' = fd /\
  Lineno s' = 1 /\ Mline s' = 1 /\
  Next s' = END /\ sMark s' = END /\ eMark s' = END /\ End_buf s' = END /\
  Eof_read s' = false /\
  pMark s' = pMark s /\ pLineno s' = pLineno s /\ pLength s' = pLength s /\
  Termchar s' = Termchar s /\
  Start_buf s' = Start_buf s /\ been_called s' = been_called s.
Proof.
  intros H Hfd.
  assert (E : (fd =? -1) = false) by lia.
  unfold ii_newfile, bind, gets, modify, ret in H.
  destruct filename as [path|].
  - destruct (sys_open path (Os s)) as [fd0 o] eqn:O.
    simpl in H.
    destruct (fd0 =? -1) eqn:E0; simpl in H.
    + inversion H; subst; lia.
    + destruct (Input_file s =? STDIN); simpl in H;
        inversion H; subst; simpl; repeat split; reflexivity.
  - simpl in H.
    destruct (Input_file s =? STDIN); simpl in H;
      inversion H; subst; simpl; repeat split; reflexivity.
Qed.

(** C3 (amended): a successful [ii_newfile] sets both line counters to 1, puts
    the cursor, both lexeme marks and the extent at [END], clears the
    end-of-file flag and installs the new handle; the previous-lexeme mark,
    its line and length snapshots, the saved terminator byte, the buffer
    and the once-only flag of [ii_advance] are left as they were. *)
Theorem newfile_resets_cursor_and_marks
  (filename : option string) (s : state) (fd : Z) (s' : state) :
  ii_newfile filename s = Ret fd s' ->
  fd <> -1 ->
  Input_file s' = fd /\
  Lineno s' = 1 /\ Mline s' = 1 /\
  Next s' = END /\ sMark s' = END /\ eMark s' = END /\ End_buf s' = END /\
  Eof_read s' = false /\
  pMark s' = pMark s /\ pLineno s' = pLineno s /\ pLength s' = pLength s /\
  Termchar s' = Termchar s /\
  Start_buf s' = Start_buf s /\ been_called s' = been_called s.
Proof.
  exact (ii_newfile_fields filename s fd s').
Qed.

Lemma newfile_resets_cursor_and_marks_witness :
  Input_file switched = 3 /\
  Lineno switched = 1 /\ Mline switched = 1 /\
  Next switched = END /\ sMark switched = END /\ eMark switched = END /\
  End_buf switched = END /\
  Eof_read switched = false /\
  pMark switched = pMark marked_and_terminated /\
  pLineno switched = pLineno marked_and_terminated /\
  pLength switched = pLength marked_and_terminated /\
  Termchar switched = Termchar marked_and_terminated /\
  Start_buf switched = Start_buf marked_and_terminated /\
  been_called switched = been_called marked_and_terminated.
Proof.
  apply (newfile_resets_cursor_and_marks
           (Some "next") marked_and_terminated 3 switched).
  - vm_compute; reflexivity.
  - lia.
Defined.

(** C3, as the specification words it, fails: a previous-lexeme mark and a
    saved terminator byte survive the switch to another file. *)
Lemma newfile_keeps_prev_mark_and_terminator :
  ~ newfile_clears_everything (Some "next") marked_and_terminated.
Proof.
  intros H.
  assert (N : ii_newfile (Some "next") marked_and_terminated = Ret 3 switched)
    by (vm_compute; reflexivity).
  destruct (H 3 switched N ltac:(lia)) as (_ & _ & _ & _ & _ & _ & HP & _).
  assert (P : pMark switched = Some 0) by (vm_compute; reflexivity).
  rewrite P in HP; discriminate HP.
Qed.

(** ** Text in the array *)

Lemma window_length (buf : list byte) (k : nat) :
  forall p,
    0 <= p -> p + Z.of_nat k <= Z.of_nat (List.length buf) ->
    List.length (window buf p k) = k.
Proof.
  induction k as [|k IH]; intros p H0 Hb; simpl; [reflexivity|].
  destruct (load_inside buf p ltac:(lia)) as [b ->]; simpl.
  rewrite IH by lia; reflexivity.
Qed.

Lemma window_snoc (buf : list byte) (k : nat) :
  forall p b,
    0 <= p -> p + Z.of_nat k < Z.of_nat (List.length buf) ->
    load buf (p + Z.of_nat k) = Some b ->
    window buf p (S k) = window buf p k ++ [b].
Proof.
  induction k as [|k IH]; intros p b H0 Hb L.
  - simpl in *; rewrite Z.add_0_r in L; rewrite L; reflexivity.
  - change (window buf p (S (S k)))
      with (match load buf p with
            | Some b0 => b0 :: window buf (p + 1) (S k)
            | None => []
            end).
    change (window buf p (S k))
      with (match load buf p with
            | Some b0 => b0 :: window buf (p + 1) k
            | None => []
            end).
    destruct (load_inside buf p ltac:(lia)) as [b0 ->].
    rewrite (IH (p + 1) b) by (try lia; rewrite <- L; f_equal; lia).
    reflexivity.
Qed.

Lemma count_app (f : byte -> bool) (l1 l2 : list byte) :
  count f (l1 ++ l2) = count f l1 + count f l2.
Proof.
  unfold count; rewrite filter_app, length_app; lia.
Qed.

Lemma count_single (f : byte -> bool) (c : byte) :
  count f [c] = if f c then 1 else 0.
Proof. unfold count; simpl; destruct (f c); reflexivity. Qed.

Lemma count_nonneg (f : byte -> bool) (l : list byte) : 0 <= count f l.
Proof. unfold count; lia. Qed.


(** ** Pushback *)

Lemma Ret_inj {A : Type} (v v' : A) (s s' : state) :
  Ret v s = Ret v' s' -> v = v' /\ s = s'.
Proof. intros H; injection H; auto. Qed.

Lemma Ret_state_value (v v' : Z) (s : state) :
  v = v' -> Ret v s = Ret v' s.
Proof. intros ->; reflexivity. Qed.

Lemma Ret_state {A : Type} (v : A) (s s' : state) :
  s = s' -> Ret v s = Ret v s'.
Proof. intros ->; reflexivity. Qed.

(** Two states built from the fields of [s] agree when the fields do. *)
Ltac constants :=
  unfold DANGER, END, BUFSIZE, MAXLEN, MAXLOOK, STDIN, EOF in *.

(** Reduce the projections and setters of [state], and nothing else. *)
Ltac fields :=
  cbn [Start_buf End_buf Next sMark eMark pMark pLineno pLength Input_file Lineno Mline Termchar Eof_read been_called Os set_Start_buf set_End_buf set_Next set_sMark set_eMark set_pMark set_pLineno set_pLength set_Input_file set_Lineno set_Mline set_Termchar set_Eof_read set_been_called set_Os].
Ltac fields_everywhere :=
  cbn [Start_buf End_buf Next sMark eMark pMark pLineno pLength Input_file Lineno Mline Termchar Eof_read been_called Os set_Start_buf set_End_buf set_Next set_sMark set_eMark set_pMark set_pLineno set_pLength set_Input_file set_Lineno set_Mline set_Termchar set_Eof_read set_been_called set_Os] in *.

Ltac same_state s :=
  apply Ret_state; destruct s; fields_everywhere; f_equal; constants; lia.

Lemma pusback_loop_spec (k : nat) :
  forall s,
    Z.of_nat (List.length (Start_buf s)) = BUFSIZE ->
    0 <= sMark s -> sMark s <= Next s -> Next s <= BUFSIZE ->
    let m := Z.to_nat (Z.min (Z.of_nat k) (Next s - sMark s)) in
    pusback_loop k s =
      Ret tt
        (set_Lineno
           (Lineno s
            - count newline_or_null
                (window (Start_buf s) (Next s - Z.of_nat m) m))
           (set_Next (Next s - Z.of_nat m) s)).
Proof.
  induction k as [|k IH]; intros s Hbuf H0 Hle Hhi m.
  - subst m.
    replace (Z.to_nat (Z.min (Z.of_nat 0) (Next s - sMark s))) with 0%nat
      by lia.
    unfold ret; cbn [window]; change (count newline_or_null []) with 0;
      same_state s.
  - simpl pusback_loop. unfold bind at 1, gets at 1.
    destruct (sMark s <? Next s) eqn:More.
    + unfold bind at 1, modify at 1.
      unfold bind at 1, gets at 1.
      unfold bind at 1, deref at 1.
      cbn [Next Start_buf set_Next].
      destruct (load_inside (Start_buf s) (Next s - 1) ltac:(lia)) as [c L].
      rewrite L.
      assert (M : m = S (Z.to_nat (Z.min (Z.of_nat k)
                                      (Next s - 1 - sMark s)))) by lia.
      set (m' := Z.to_nat (Z.min (Z.of_nat k) (Next s - 1 - sMark s))) in *.
      assert (W : window (Start_buf s) (Next s - Z.of_nat m) m
                  = window (Start_buf s) (Next s - 1 - Z.of_nat m') m' ++ [c]).
      { rewrite M.
        replace (Next s - Z.of_nat (S m')) with (Next s - 1 - Z.of_nat m')
          by lia.
        apply window_snoc; try lia.
        rewrite <- L; f_equal; lia. }
      rewrite W, count_app, count_single.
      unfold newline_or_null at 2.
      unfold bind at 1.
      destruct (Byte.eqb c NL || Byte.eqb c NUL) eqn:T.
      * unfold modify at 1.
        rewrite IH by (cbn; lia).
        cbn. fold m'. same_state s.
      * unfold ret at 1.
        rewrite IH by (cbn; lia).
        cbn. fold m'. same_state s.
    + assert (m = 0%nat) by lia.
      subst m.
      replace (Z.to_nat (Z.min (Z.of_nat (S k)) (Next s - sMark s)))
        with 0%nat by lia.
      unfold ret; cbn [window]; change (count newline_or_null []) with 0;
      same_state s.
Qed.

(** C7: [ii_pusback n] moves the cursor back by [min n (Next - sMark)]
    positions and never past [sMark]; the line number drops by one for each
    crossed byte that is a newline or a zero; when the cursor lands before
    [eMark], [eMark] and its line snapshot are pulled back to the cursor
    (and stay otherwise); the result is 1 exactly when the cursor ends
    strictly after [sMark], and 0 otherwise. *)
Theorem pusback_retreats (n : Z) (s : state) :
  0 <= n ->
  Z.of_nat (List.length (Start_buf s)) = BUFSIZE ->
  0 <= sMark s -> sMark s <= Next s -> Next s <= BUFSIZE ->
  exists r s',
    ii_pusback n s = Ret r s' /\
    Next s' = Next s - Z.min n (Next s - sMark s) /\
    sMark s' = sMark s /\ sMark s' <= Next s' /\
    List.length (window (Start_buf s) (Next s') (Z.to_nat (Next s - Next s')))
    = Z.to_nat (Next s - Next s') /\
    Lineno s' =
      Lineno s
      - count newline_or_null
          (window (Start_buf s) (Next s') (Z.to_nat (Next s - Next s'))) /\
    (Next s' < eMark s -> eMark s' = Next s' /\ Mline s' = Lineno s') /\
    (eMark s <= Next s' -> eMark s' = eMark s /\ Mline s' = Mline s) /\
    (r = 1 <-> sMark s' < Next s') /\
    (r = 0 <-> Next s' <= sMark s') /\
    Start_buf s' = Start_buf s /\ End_buf s' = End_buf s /\
    pMark s' = pMark s /\ Eof_read s' = Eof_read s.
Proof.
  intros Hn Hbuf H0 Hle Hhi.
  pose proof (pusback_loop_spec (Z.to_nat n) s Hbuf H0 Hle Hhi) as L.
  cbv zeta in L.
  rewrite !Z2Nat.id in L by lia.
  remember (Z.min n (Next s - sMark s)) as m eqn:Em.
  assert (Hm : 0 <= m <= Next s - sMark s) by lia.
  clear Em.
  unfold ii_pusback, bind at 1.
  rewrite L.
  unfold bind at 1, gets at 1; cbn [Next eMark set_Lineno set_Next].
  assert (W : List.length (window (Start_buf s) (Next s - m) (Z.to_nat m))
              = Z.to_nat m)
    by (apply window_length; lia).
  replace (Next s - (Next s - m)) with m by lia.
  destruct (Next s - m <? eMark s) eqn:B.
  - unfold bind, modify, gets; cbn.
    destruct (sMark s <? Next s - m) eqn:R;
      eexists _, _; (split; [reflexivity|]); cbn;
      replace (Next s - (Next s - m)) with m by lia;
      repeat split; try reflexivity; try assumption; try lia.
  - unfold bind, ret, gets; cbn.
    destruct (sMark s <? Next s - m) eqn:R;
      eexists _, _; (split; [reflexivity|]); cbn;
      replace (Next s - (Next s - m)) with m by lia;
      repeat split; try reflexivity; try assumption; try lia.
Qed.

Lemma pusback_retreats_witness :
  0 <= 3 /\
  Z.of_nat (List.length (Start_buf four_read)) = BUFSIZE /\
  0 <= sMark four_read /\ sMark four_read <= Next four_read /\
  Next four_read <= BUFSIZE /\
  exists r s',
    ii_pusback 3 four_read = Ret r s' /\
    Next s' = Next four_read - Z.min 3 (Next four_read - sMark four_read) /\
    sMark s' = sMark four_read /\ sMark s' <= Next s' /\
    List.length (window (Start_buf four_read) (Next s')
                   (Z.to_nat (Next four_read - Next s')))
    = Z.to_nat (Next four_read - Next s') /\
    Lineno s' =
      Lineno four_read
      - count newline_or_null
          (window (Start_buf four_read) (Next s')
             (Z.to_nat (Next four_read - Next s'))) /\
    (Next s' < eMark four_read -> eMark s' = Next s' /\ Mline s' = Lineno s') /\
    (eMark four_read <= Next s' ->
     eMark s' = eMark four_read /\ Mline s' = Mline four_read) /\
    (r = 1 <-> sMark s' < Next s') /\
    (r = 0 <-> Next s' <= sMark s') /\
    Start_buf s' = Start_buf four_read /\ End_buf s' = End_buf four_read /\
    pMark s' = pMark four_read /\ Eof_read s' = Eof_read four_read.
Proof.
  assert (H1 : 0 <= 3) by lia.
  assert (H2 : Z.of_nat (List.length (Start_buf four_read)) = BUFSIZE)
    by (vm_compute; reflexivity).
  assert (H3 : 0 <= sMark four_read) by (vm_compute; intros; discriminate).
  assert (H4 : sMark four_read <= Next four_read)
    by (vm_compute; intros; discriminate).
  assert (H5 : Next four_read <= BUFSIZE)
    by (vm_compute; intros; discriminate).
  split; [exact H1|]. split; [exact H2|]. split; [exact H3|].
  split; [exact H4|]. split; [exact H5|].
  exact (pusback_retreats 3 four_read H1 H2 H3 H4 H5).
Defined.

(** ** Filling *)

Lemma need_bounds (c : Z) :
  0 <= c <= BUFSIZE ->
  size_t (Z.quot (END - c) MAXLEN * MAXLEN) = Z.quot (END - c) MAXLEN * MAXLEN /\
  0 <= Z.quot (END - c) MAXLEN * MAXLEN <= END - c /\
  (c <= BUFSIZE - MAXLEN -> MAXLEN <= Z.quot (END - c) MAXLEN * MAXLEN).
Proof.
  intros Hc; constants.
  assert (0 <= Z.quot (3 * 1024 + 2 * 16 - c) 1024 * 1024
          <= 3 * 1024 + 2 * 16 - c)
    by (Z.to_euclidean_division_equations; lia).
  split; [unfold size_t; apply Z.mod_small; lia|].
  split; [assumption|].
  intros; Z.to_euclidean_division_equations; lia.
Qed.

(** A fill that reports bytes has put a prefix of the unread stream at
    [starting_at] and moved [End_buf] behind it; nothing else changes. *)
Lemma ii_fillbuf_some (c : Z) (s : state) (got : Z) (s' : state) :
  0 <= c <= BUFSIZE ->
  ii_fillbuf c s = Ret got s' ->
  got <> 0 ->
  exists d buf',
    lookup_fd (Input_file s) (os_fds (Os s)) = Some d /\
    0 < got /\ got <= END - c /\ got <= Z.of_nat (List.length d) /\
    store_block (Start_buf s) c (firstn (Z.to_nat got) d) = Some buf' /\
    s' = set_End_buf (c + got)
           (set_Os (mkOs (os_files (Os s))
                      ((Input_file s, skipn (Z.to_nat got) d)
                         :: remove_fd (Input_file s) (os_fds (Os s))))
              (set_Start_buf buf' s)).
Proof.
  intros Hc H Hgot.
  destruct (need_bounds c Hc) as (Hsz & Hneed & _).
  unfold ii_fillbuf in H.
  rewrite Hsz in H.
  set (need := Z.quot (END - c) MAXLEN * MAXLEN) in *.
  destruct (need <? 0) eqn:E1; [lia|].
  destruct (need =? 0) eqn:E2.
  { unfold ret in H; inversion H; subst; lia. }
  unfold bind at 1, gets at 1 in H.
  unfold bind at 1, read, sys_read in H.
  destruct (lookup_fd (Input_file s) (os_fds (Os s))) as [d|] eqn:Lk.
  - set (k := Z.to_nat (Z.min need (Z.of_nat (List.length d)))) in *.
    assert (Hk : Z.of_nat (List.length (firstn k d))
                 = Z.min need (Z.of_nat (List.length d))).
    { rewrite length_firstn; subst k; lia. }
    rewrite Hk in H.
    destruct (store_block (Start_buf s) c (firstn k d)) as [buf'|] eqn:SB;
      [|discriminate].
    destruct (Z.min need (Z.of_nat (List.length d)) =? -1) eqn:E3; [lia|].
    unfold bind, modify, ret in H.
    destruct (Z.min need (Z.of_nat (List.length d)) =? 0) eqn:E4.
    + inversion H; subst got; lia.
    + inversion H; subst got s'.
      exists d, buf'; split; [reflexivity|].
      fold k.
      repeat split; try lia; try assumption.
  - cbn in H.
    destruct (store_block (Start_buf s) c []) eqn:SB; [|discriminate].
    cbn in H. discriminate.
Qed.

(** ** Compaction *)

Lemma size_t_small (z : Z) : 0 <= z <= BUFSIZE -> size_t z = z.
Proof.
  intros H; unfold size_t; apply Z.mod_small.
  constants; change (2 ^ 64) with 18446744073709551616; lia.
Qed.

Lemma size_t_negative (z : Z) : - BUFSIZE <= z < 0 -> BUFSIZE < size_t z.
Proof.
  intros H; unfold size_t.
  replace z with (z + 18446744073709551616 + (-1) * 2 ^ 64)
    by (change (2 ^ 64) with 18446744073709551616; lia).
  rewrite Z.mod_add by (change (2 ^ 64) with 18446744073709551616; lia).
  rewrite Z.mod_small;
    constants; change (2 ^ 64) with 18446744073709551616; lia.
Qed.

(** What a compaction that returns has done: the text from [edge] to the
    old extent sits at the origin, fresh bytes of the stream follow it, and
    every pointer has moved down by [edge]. *)
Lemma compact_ret (edge : Z) (s : state) (r : Z) (s' : state) :
  Z.of_nat (List.length (Start_buf s)) = BUFSIZE ->
  0 <= edge <= BUFSIZE -> 0 <= End_buf s <= BUFSIZE ->
  compact edge s = Ret r s' ->
  r = 1 /\ edge <= End_buf s /\
  exists d got,
    lookup_fd (Input_file s) (os_fds (Os s)) = Some d /\
    0 < got /\ got <= Z.of_nat (List.length d) /\
    End_buf s' = End_buf s - edge + got /\ End_buf s' <= BUFSIZE /\
    Next s' = Next s - edge /\
    sMark s' = sMark s - edge /\
    eMark s' = eMark s - edge /\
    pMark s' = option_map (fun p => p - edge) (pMark s) /\
    Lineno s' = Lineno s /\ Mline s' = Mline s /\
    pLineno s' = pLineno s /\ pLength s' = pLength s /\
    Termchar s' = Termchar s /\ Eof_read s' = Eof_read s /\
    been_called s' = been_called s /\ Input_file s' = Input_file s /\
    Z.of_nat (List.length (Start_buf s')) = BUFSIZE /\
    (forall i, edge <= i < End_buf s ->
               load (Start_buf s') (i - edge) = load (Start_buf s) i) /\
    (forall j, (j < Z.to_nat got)%nat ->
               load (Start_buf s') (End_buf s - edge + Z.of_nat j)
               = nth_error d j).
Proof.
  intros Hbuf Hedge Hend H.
  unfold compact in H.
  unfold bind at 1, gets at 1 in H.
  unfold bind at 1, memcpy in H.
  destruct (memcpy_buf 0 edge (End_buf s - edge) (Start_buf s))
    as [buf1|] eqn:MC; [|discriminate].
  assert (Hcopy : 0 <= End_buf s - edge).
  { destruct (Z_lt_le_dec (End_buf s - edge) 0) as [Neg|]; [|assumption].
    unfold memcpy_buf in MC.
    pose proof (size_t_negative (End_buf s - edge) ltac:(lia)).
    destruct (size_t (End_buf s - edge) <=? Z.of_nat (List.length (Start_buf s)))
      eqn:E; [lia|discriminate]. }
  unfold memcpy_buf in MC.
  rewrite size_t_small in MC by lia.
  destruct (End_buf s - edge <=? Z.of_nat (List.length (Start_buf s)));
    [|discriminate].
  destruct (copy_fwd_spec _ _ _ _ _ MC ltac:(lia)) as (Len1 & In1 & _).
  rewrite Z2Nat.id in In1 by lia.
  unfold bind at 1 in H.
  destruct (ii_fillbuf (0 + (End_buf s - edge)) (set_Start_buf buf1 s))
    as [got s2| |] eqn:F; try discriminate.
  unfold bind at 1 in H.
  destruct (got =? 0) eqn:G; [discriminate|].
  apply ii_fillbuf_some in F as (d & buf2 & Lk & Gpos & Gend & Glen & SB & ->);
    [|lia|lia].
  destruct (store_block_spec _ _ _ _ SB) as (Len2 & In2 & Out2).
  assert (Hk : List.length (firstn (Z.to_nat got) d) = Z.to_nat got)
    by (rewrite length_firstn; lia).
  unfold ret, bind, modify in H; cbn in H, Lk, SB, Len2.
  split; [destruct (pMark s); inversion H; reflexivity|].
  split; [lia|].
  exists d, got.
  split; [exact Lk|]. split; [lia|]. split; [lia|].
  assert (Hpres : forall i, edge <= i < End_buf s ->
                            load buf2 (i - edge) = load (Start_buf s) i).
  { intros i Hi.
    rewrite Out2 by lia.
    replace (i - edge) with (0 + (i - edge)) by lia.
    rewrite In1 by lia.
    f_equal; lia. }
  assert (Hnew : forall j, (j < Z.to_nat got)%nat ->
                           load buf2 (End_buf s - edge + Z.of_nat j)
                           = nth_error d j).
  { intros j Hj.
    replace (End_buf s - edge + Z.of_nat j)
      with (0 + (End_buf s - edge) + Z.of_nat j) by lia.
    rewrite In2 by lia.
    rewrite nth_error_firstn.
    destruct (Nat.ltb j (Z.to_nat got)) eqn:E; [reflexivity|].
    apply Nat.ltb_ge in E; lia. }
  assert (Hlen : Z.of_nat (List.length buf2) = BUFSIZE) by congruence.
  destruct (pMark s) as [p|] eqn:P; inversion H; subst s'; cbn;
    rewrite ?P; cbn; rewrite ?Z.sub_0_r;
    repeat split; try reflexivity; try assumption; constants; try lia.
Qed.

Lemma compact_total (edge : Z) (s : state) (d : list byte) :
  Z.of_nat (List.length (Start_buf s)) = BUFSIZE ->
  0 <= edge <= End_buf s -> End_buf s <= BUFSIZE ->
  End_buf s - edge <= BUFSIZE - MAXLEN ->
  lookup_fd (Input_file s) (os_fds (Os s)) = Some d ->
  d <> [] ->
  exists s', compact edge s = Ret 1 s'.
Proof.
  intros Hbuf Hedge Hend Hroom Lk Hd.
  unfold compact.
  unfold bind at 1, gets at 1.
  unfold bind at 1, memcpy, memcpy_buf.
  rewrite size_t_small by lia.
  destruct (End_buf s - edge <=? Z.of_nat (List.length (Start_buf s))) eqn:E;
    [|lia].
  destruct (copy_fwd_total (Z.to_nat (End_buf s - edge)) 0 edge (Start_buf s))
    as [buf1 C]; try lia.
  rewrite C.
  assert (Len1 : List.length buf1 = List.length (Start_buf s))
    by (apply (copy_fwd_spec _ _ _ _ _ C); lia).
  destruct (need_bounds (0 + (End_buf s - edge)) ltac:(lia))
    as (Hsz & Hneed & Hbig).
  specialize (Hbig ltac:(lia)).
  unfold bind at 1, ii_fillbuf.
  rewrite Hsz.
  set (need := Z.quot (END - (0 + (End_buf s - edge))) MAXLEN * MAXLEN) in *.
  assert (0 < MAXLEN) by (constants; lia).
  destruct (need <? 0) eqn:E1; [lia|].
  destruct (need =? 0) eqn:E2; [lia|].
  unfold bind at 1, gets at 1.
  unfold bind at 1, read, sys_read.
  cbn [Input_file Os Start_buf set_Start_buf].
  rewrite Lk.
  set (k := Z.to_nat (Z.min need (Z.of_nat (List.length d)))).
  assert (Hdpos : (0 < List.length d)%nat)
    by (destruct d; [congruence|simpl; lia]).
  assert (Hk : Z.of_nat (List.length (firstn k d))
               = Z.min need (Z.of_nat (List.length d)))
    by (rewrite length_firstn; subst k; lia).
  destruct (store_block_total (firstn k d) buf1 (0 + (End_buf s - edge)))
    as [buf2 SB]; [lia|rewrite Hk, Len1; constants; lia|].
  rewrite SB, Hk.
  destruct (Z.min need (Z.of_nat (List.length d)) =? -1) eqn:E3; [lia|].
  unfold bind, modify, ret.
  destruct (Z.min need (Z.of_nat (List.length d)) =? 0) eqn:E4; [lia|].
  rewrite E4.
  destruct (pMark s); cbn; eexists; reflexivity.
Qed.

(** ** Flushing *)

Lemma ii_flush_unfold (force : bool) (s : state) :
  ii_flush force s =
    if NO_MORE_CHARS s then Ret 0 s
    else if Eof_read s then Ret 1 s
    else if (DANGER s <=? Next s) || force then
      if left_edge_of s <? MAXLEN then
        if force then compact (Next s) (marks_reset s) else Ret (-1) s
      else compact (left_edge_of s) s
    else Ret 1 s.
Proof.
  unfold ii_flush, bind, gets, ret.
  destruct (NO_MORE_CHARS s); [reflexivity|].
  destruct (Eof_read s); [reflexivity|].
  destruct ((DANGER s <=? Next s) || force); [|reflexivity].
  rewrite Z.sub_0_r.
  destruct (left_edge_of s <? MAXLEN); [|reflexivity].
  destruct force; reflexivity.
Qed.

Lemma left_edge_bounds (s : state) :
  inv s -> 0 <= left_edge_of s <= sMark s /\ left_edge_of s <= BUFSIZE.
Proof.
  intros (_ & Hs & He & _ & Hp); unfold left_edge_of.
  destruct (pMark s) as [p|]; [specialize (Hp p eq_refl)|]; lia.
Qed.




(** A conjunction of closed facts, each settled by evaluation. *)
Ltac evaluate :=
  repeat match goal with |- _ /\ _ => split end;
  vm_compute; reflexivity.

(** Facts about a state given in full are settled by evaluation. *)
Ltac concrete :=
  unfold inv;
  repeat match goal with |- _ /\ _ => split end;
  vm_compute; try reflexivity; try (intros; discriminate).


(** ** Advancing *)

Lemma ii_advance_called (s : state) :
  been_called s = true -> ii_advance s = fetch s.
Proof.
  intros H; unfold ii_advance, bind at 1, gets at 1; rewrite H; reflexivity.
Qed.

Lemma fetch_unfold (s : state) :
  fetch s =
    if NO_MORE_CHARS s then Ret 0 s
    else if Eof_read s then consume s
    else match ii_flush false s with
         | Ret r s1 => if r <? 0 then Ret (-1) s1 else consume s1
         | Fatal msg => Fatal msg
         | Undefined => Undefined
         end.
Proof.
  unfold fetch, bind, gets, ret.
  destruct (NO_MORE_CHARS s); [reflexivity|].
  destruct (Eof_read s); simpl; [reflexivity|].
  destruct (ii_flush false s) as [r s1| |]; try reflexivity.
  destruct (r <? 0); reflexivity.
Qed.

Lemma consume_spec (s : state) (c : byte) :
  load (Start_buf s) (Next s) = Some c ->
  consume s =
    Ret (int_of_uchar c)
      (set_Next (Next s + 1)
         (if is_newline c then set_Lineno (Lineno s + 1) s else s)).
Proof.
  intros L; unfold consume, bind, gets, deref, modify, ret, is_newline.
  rewrite L.
  destruct (Byte.eqb c NL); reflexivity.
Qed.



(** ** Lookahead *)

Lemma ii_look_unfold (n : Z) (s : state) :
  ii_look n s =
    let p := Next s + (n - 1) in
    if Eof_read s && (End_buf s <=? p) then Ret EOF s
    else if (p <? 0) || (End_buf s <=? p) then Ret 0 s
    else match load (Start_buf s) p with
         | Some c => Ret (int_of_uchar c) s
         | None => Undefined
         end.
Proof.
  unfold ii_look, bind, gets, ret, deref; cbv zeta.
  destruct (Eof_read s && (End_buf s <=? Next s + (n - 1))); [reflexivity|].
  destruct ((Next s + (n - 1) <? 0) || (End_buf s <=? Next s + (n - 1)));
    [reflexivity|].
  destruct (load (Start_buf s) (Next s + (n - 1))); reflexivity.
Qed.





(** ** The values returned *)







(** ** The newline in front of the first line *)

(** C10 (amended): once [ii_advance] has been called, it never runs its
    once-only block again; after a switch to a stream that is not empty,
    and provided no previous-lexeme mark lies less than [MAXLEN] from the
    origin of the buffer, the first [ii_advance] returns the first byte of
    the new stream, not a newline of its own making, and the line number
    is 1 (or 2 when that byte is itself a newline), with nothing taken off
    to make up for a pushed newline; the lexeme marks sit on that first
    byte. *)
Theorem switch_does_not_seed_again
  (filename : option string) (s : state) (fd : Z) (s1 : state)
  (b : byte) (rest : list byte) :
  inv s ->
  been_called s = true ->
  ii_newfile filename s = Ret fd s1 ->
  fd <> -1 ->
  lookup_fd fd (os_fds (Os s1)) = Some (b :: rest) ->
  (forall p, pMark s = Some p -> MAXLEN <= p) ->
  ii_advance s1 = fetch s1 /\
  exists s2,
    ii_advance s1 = Ret (int_of_uchar b) s2 /\
    Lineno s2 = (if is_newline b then 2 else 1) /\
    load (Start_buf s2) (Next s2 - 1) = Some b /\
    sMark s2 = Next s2 - 1 /\ eMark s2 = Next s2 - 1 /\
    been_called s2 = true.
Proof.
  intros Hinv Hcalled Hnew Hfd Lk Hp.
  pose proof (inv_length s Hinv) as Hbuf.
  destruct (ii_newfile_fields _ _ _ _ Hnew Hfd)
    as (Hin & Hl & _ & HN & HS & HE & HEnd & Eof & HP & _ & _ & _ & HB & HC).
  assert (Hcalled1 : been_called s1 = true) by congruence.
  split; [apply ii_advance_called; exact Hcalled1|].
  rewrite (ii_advance_called s1 Hcalled1), fetch_unfold.
  unfold NO_MORE_CHARS; rewrite Eof; simpl.
  rewrite ii_flush_unfold.
  unfold NO_MORE_CHARS; rewrite Eof; simpl.
  assert (D : (DANGER s1 <=? Next s1) = true)
    by (unfold DANGER; rewrite HN, HEnd; constants; lia).
  rewrite D; simpl.
  assert (Hedge : MAXLEN <= left_edge_of s1 <= END).
  { unfold left_edge_of; rewrite HP, HS.
    destruct Hinv as (_ & _ & _ & _ & Hq).
    destruct (pMark s) as [p|];
      [specialize (Hp p eq_refl); specialize (Hq p eq_refl)|];
      constants; lia. }
  destruct (left_edge_of s1 <? MAXLEN) eqn:R; [lia|].
  assert (Hbuf1 : Z.of_nat (List.length (Start_buf s1)) = BUFSIZE)
    by (rewrite HB; exact Hbuf).
  rewrite <- Hin in Lk.
  destruct (compact_total (left_edge_of s1) s1 (b :: rest))
    as [s' C]; try assumption; try discriminate;
    try (rewrite ?HEnd; constants; lia).
  rewrite C; simpl.
  destruct (compact_ret (left_edge_of s1) s1 1 s' Hbuf1
              ltac:(constants; lia) ltac:(rewrite HEnd; constants; lia) C)
    as (_ & _ & d & got & Lk' & Hgot & _ & _ & _ & HN' & HS' & HE' & _ & HL'
        & _ & _ & _ & _ & _ & HC' & _ & _ & _ & New).
  rewrite Lk in Lk'; inversion Lk'; subst d.
  specialize (New 0%nat ltac:(lia)); simpl in New.
  rewrite Z.add_0_r in New.
  assert (L : load (Start_buf s') (Next s') = Some b)
    by (rewrite HN', HN, <- HEnd; exact New).
  rewrite (consume_spec s' b L).
  eexists; split; [reflexivity|].
  destruct (is_newline b); cbn;
    (split; [lia|]);
    (split; [replace (Next s' + 1 - 1) with (Next s') by lia; exact L|]);
    repeat split; try lia; congruence.
Qed.

Lemma switch_does_not_seed_again_witness :
  inv before_switch /\
  been_called before_switch = true /\
  ii_newfile (Some "next") before_switch = Ret 3 after_switch /\
  3 <> -1 /\
  lookup_fd 3 (os_fds (Os after_switch)) = Some [x78] /\
  (forall p, pMark before_switch = Some p -> MAXLEN <= p) /\
  ii_advance after_switch = fetch after_switch /\
  exists s2,
    ii_advance after_switch = Ret (int_of_uchar x78) s2 /\
    Lineno s2 = (if is_newline x78 then 2 else 1) /\
    load (Start_buf s2) (Next s2 - 1) = Some x78 /\
    sMark s2 = Next s2 - 1 /\ eMark s2 = Next s2 - 1 /\
    been_called s2 = true.
Proof.
  assert (I : inv before_switch) by concrete.
  assert (C : been_called before_switch = true) by (vm_compute; reflexivity).
  assert (N : ii_newfile (Some "next") before_switch = Ret 3 after_switch)
    by (vm_compute; reflexivity).
  assert (F : 3 <> -1) by lia.
  assert (L : lookup_fd 3 (os_fds (Os after_switch)) = Some [x78])
    by (vm_compute; reflexivity).
  assert (P : forall p, pMark before_switch = Some p -> MAXLEN <= p)
    by (assert (E : pMark before_switch = None) by (vm_compute; reflexivity);
        intros p H; rewrite E in H; discriminate H).
  split; [exact I|]. split; [exact C|]. split; [exact N|].
  split; [exact F|]. split; [exact L|]. split; [exact P|].
  exact (switch_does_not_seed_again (Some "next") before_switch 3 after_switch
           x78 [] I C N F L P).
Defined.

(** C10, as stated for every switch, fails: with a previous-lexeme mark left
    at the origin of the buffer the first [ii_advance] on the new stream
    returns -1 and not the stream's first byte. *)
Lemma stale_prev_mark_blocks_new_stream :
  been_called marked_and_terminated = true /\
  ~ first_byte_after_switch (Some "next") marked_and_terminated.
Proof.
  split; [vm_compute; reflexivity|].
  intros H.
  assert (N : ii_newfile (Some "next") marked_and_terminated = Ret 3 switched)
    by (vm_compute; reflexivity).
  assert (L : lookup_fd 3 (os_fds (Os switched)) = Some [x78])
    by (vm_compute; reflexivity).
  destruct (H 3 switched x78 [] N ltac:(lia) L) as (s2 & A & _).
  assert (V : ii_advance switched = Ret (-1) switched)
    by (vm_compute; reflexivity).
  destruct (Ret_inj _ _ _ _ (eq_trans (eq_sym V) A)) as [V' _].
  assert (B : int_of_uchar x78 = 120) by (vm_compute; reflexivity).
  rewrite B in V'; discriminate V'.
Qed.

(** ** Advancing below the danger zone *)

Lemma ii_advance_quiet (s : state) :
  been_called s = true ->
  Z.of_nat (List.length (Start_buf s)) = BUFSIZE ->
  0 <= Next s -> Next s < End_buf s -> End_buf s <= BUFSIZE ->
  Eof_read s = true \/ Next s < DANGER s ->
  exists c,
    load (Start_buf s) (Next s) = Some c /\
    ii_advance s =
      Ret (int_of_uchar c)
        (set_Next (Next s + 1)
           (if is_newline c then set_Lineno (Lineno s + 1) s else s)).
Proof.
  intros Hcalled Hbuf H0 Hlt Hend Q.
  destruct (load_inside (Start_buf s) (Next s) ltac:(lia)) as [c L].
  exists c; split; [exact L|].
  rewrite (ii_advance_called s Hcalled), fetch_unfold.
  unfold NO_MORE_CHARS.
  destruct (End_buf s <=? Next s) eqn:E; [lia|].
  rewrite andb_false_r.
  destruct (Eof_read s) eqn:Eof.
  - apply consume_spec; exact L.
  - destruct Q as [Q|Q]; [discriminate|].
    rewrite ii_flush_unfold.
    unfold NO_MORE_CHARS; rewrite Eof; simpl.
    destruct (DANGER s <=? Next s) eqn:D; [lia|].
    simpl. apply consume_spec; exact L.
Qed.

Lemma advances_quiet (k : nat) :
  forall s,
    been_called s = true ->
    Z.of_nat (List.length (Start_buf s)) = BUFSIZE ->
    0 <= Next s -> Next s + Z.of_nat k <= End_buf s -> End_buf s <= BUFSIZE ->
    Eof_read s = true \/ Next s + Z.of_nat k <= DANGER s ->
    advances k s =
      Ret (map int_of_uchar (window (Start_buf s) (Next s) k))
        (set_Lineno
           (Lineno s + count is_newline (window (Start_buf s) (Next s) k))
           (set_Next (Next s + Z.of_nat k) s)).
Proof.
  induction k as [|k IH]; intros s Hcalled Hbuf H0 Hk Hend Q.
  - cbn [advances window map]. change (count is_newline []) with 0.
    unfold ret; same_state s.
  - cbn [advances]. unfold bind at 1.
    destruct (ii_advance_quiet s Hcalled Hbuf H0 ltac:(lia) Hend
                ltac:(destruct Q; [left; assumption|right; lia]))
      as (c & L & ->).
    cbn [window]; rewrite L.
    unfold bind at 1.
    rewrite IH;
      try (destruct (is_newline c); fields; first [assumption | lia]).
    + unfold bind, ret. cbn [map].
      replace (c :: window (Start_buf s) (Next s + 1) k)
        with ([c] ++ window (Start_buf s) (Next s + 1) k) by reflexivity.
      rewrite count_app, count_single.
      destruct (is_newline c); fields; same_state s.
    + destruct (is_newline c); fields;
        (destruct Q as [Q|Q]; [left; assumption|right; unfold DANGER in *;
                                                  fields; lia]).
Qed.

(** ** Pushback and then advance *)





(** ** End of stream *)

(** C2 (the code departs from it): on an empty standard input the very
    first [ii_advance] ends the process, because the read of its flush
    finds no byte; on "ab\ncd" the forced flush that [ii_advance] asks for
    when it returns -1 ends the process in the same way.  The message is
    the one for a full buffer. *)
Theorem end_of_stream_ends_the_process :
  ii_advance (boot [] [])
  = Fatal "INTERNAL ERROR, ii_flush: Buffer full, can't read." /\
  ii_advance first_read = Ret (-1) first_read /\
  ii_flushbuf first_read
  = Fatal "INTERNAL ERROR, ii_flush: Buffer full, can't read." /\
  Eof_read first_read = false.
Proof.
  evaluate.
Qed.

(** C6 (the code departs from it): the first [ii_advance] pushes a newline
    at [END - 1], takes one off both line counters, and returns that
    newline with the line number back at 1; on "ab\ncd" every later call
    returns -1 and the state stays as it is, so 'a' is never delivered. *)
Theorem ab_cd_stops_after_the_newline :
  load (Start_buf seeded) (END - 1) = Some NL /\
  Next seeded = END - 1 /\ Lineno seeded = 0 /\ Mline seeded = 0 /\
  ii_advance (boot ab_cd []) = Ret 10 first_read /\
  Lineno first_read = 1 /\
  window (Start_buf first_read) 0 6 = NL :: ab_cd /\
  ii_advance first_read = Ret (-1) first_read /\
  value (advances 7 (boot ab_cd [])) = Some [10; -1; -1; -1; -1; -1; -1].
Proof.
  evaluate.
Qed.

(** * The rest of the module *)

(** ** The invariant along a run *)

Lemma keeps_ret {A : Type} (v : A) : keeps (ret v).
Proof.
  intros s v' s' I H; unfold ret in H; inversion H; subst; auto.
Qed.

Lemma keeps_gets {A : Type} (f : state -> A) : keeps (gets f).
Proof.
  intros s v' s' I H; unfold gets in H; inversion H; subst; auto.
Qed.

Lemma keeps_bind {A B : Type} (m : M A) (f : A -> M B) :
  keeps m -> (forall v, keeps (f v)) -> keeps (bind m f).
Proof.
  intros Km Kf s v s' I H; unfold bind in H.
  destruct (m s) as [a s1| |] eqn:E; try discriminate.
  destruct (Km s a s1 I E) as [I1 E1].
  destruct (Kf a s1 v s' I1 H) as [I2 E2].
  split; auto.
Qed.

Lemma keeps_if {A : Type} (b : bool) (m1 m2 : M A) :
  keeps m1 -> keeps m2 -> keeps (if b then m1 else m2).
Proof. destruct b; auto. Qed.

Lemma keeps_modify (f : state -> state) :
  (forall s, inv s -> inv (f s)) ->
  (forall s, Eof_read s = false -> Eof_read (f s) = false) ->
  keeps (modify f).
Proof.
  intros Hi He s v s' I H; unfold modify in H; inversion H; subst; auto.
Qed.

Lemma keeps_assign (p : Z) (b : byte) : keeps (assign p b).
Proof.
  intros s v s' I H; unfold assign in H.
  destruct (store (Start_buf s) p b) as [buf|] eqn:S; [|discriminate].
  inversion H; subst; clear H.
  split; [|auto].
  destruct I as (L & Rest); split; [|exact Rest].
  fields; rewrite (store_length _ _ _ _ S); exact L.
Qed.

(** Settles [inv] of a state whose fields are written out from [s]. *)
Ltac inv_of I :=
  let L := fresh "L" in
  let S := fresh "S" in
  let E := fresh "E" in
  let B := fresh "B" in
  let P := fresh "P" in
  destruct I as (L & S & E & B & P);
  unfold inv; fields;
  repeat match goal with |- _ /\ _ => split end;
  try assumption; try lia;
  try (let p := fresh "p" in
       let Hp := fresh "Hp" in
       intros p Hp; first [ exact (P p Hp)
                          | inversion Hp; subst; constants; lia ]).

Lemma keeps_mark_start : keeps ii_mark_start.
Proof.
  intros s v s' I H.
  unfold ii_mark_start, bind, modify, gets in H; inversion H; subst; clear H.
  split; [inv_of I|auto].
Qed.

Lemma keeps_mark_end : keeps ii_mark_end.
Proof.
  intros s v s' I H.
  unfold ii_mark_end, bind, modify, gets in H; inversion H; subst; clear H.
  split; [inv_of I|auto].
Qed.

Lemma keeps_move_start : keeps ii_move_start.
Proof.
  intros s v s' I H.
  unfold ii_move_start, bind, modify, gets, ret in H.
  destruct (eMark s <=? sMark s) eqn:C; inversion H; subst; clear H;
    (split; [|auto]); [exact I|inv_of I].
Qed.

Lemma keeps_to_mark : keeps ii_to_mark.
Proof.
  intros s v s' I H.
  unfold ii_to_mark, bind, modify, gets in H; inversion H; subst; clear H.
  split; [inv_of I|auto].
Qed.

Lemma keeps_mark_prev : keeps ii_mark_prev.
Proof.
  intros s v s' I H.
  unfold ii_mark_prev, bind, modify, gets in H; inversion H; subst; clear H.
  split; [inv_of I|auto].
Qed.

Lemma keeps_newfile (filename : option string) : keeps (ii_newfile filename).
Proof.
  intros s fd s' I H.
  destruct (Z.eq_dec fd (-1)) as [->|Hfd].
  - destruct (ii_newfile_returns filename s) as (fd' & s0 & E & Same).
    rewrite E in H; inversion H; subst.
    rewrite (Same eq_refl); auto.
  - destruct (ii_newfile_fields _ _ _ _ H Hfd)
      as (_ & _ & _ & HN & HS & HE & HEnd & Eof & HP & _ & _ & _ & HB & _).
    split; [|auto].
    destruct I as (L & S & E & B & P).
    unfold inv; rewrite HN, HS, HE, HEnd, HP, HB.
    repeat match goal with |- _ /\ _ => split end;
      try assumption; constants; lia.
Qed.

Lemma compact_inv (edge : Z) (s : state) (r : Z) (s' : state) :
  inv s ->
  0 <= edge <= sMark s ->
  (forall p, pMark s = Some p -> edge <= p) ->
  compact edge s = Ret r s' ->
  inv s' /\ Eof_read s' = Eof_read s.
Proof.
  intros I Hedge Hp H.
  pose proof (inv_length s I) as Hbuf.
  destruct I as (L & S & E & B & P).
  destruct (compact_ret edge s r s' Hbuf ltac:(lia) ltac:(lia) H)
    as (_ & Hle & d & got & _ & Hgot & _ & HEnd & HEndle & HN & HS & HE & HP
        & _ & _ & _ & _ & _ & HEof & _ & _ & HL & _).
  split; [|exact HEof].
  unfold inv; rewrite HN, HS, HE, HEnd, HP.
  split; [rewrite <- (Nat2Z.id (List.length (Start_buf s'))), HL; reflexivity|].
  rewrite HEnd in HEndle.
  repeat match goal with |- _ /\ _ => split end; try lia.
  intros p Hq.
  destruct (pMark s) as [q|]; [|discriminate].
  simpl in Hq; inversion Hq; subst.
  specialize (P q eq_refl); specialize (Hp q eq_refl); lia.
Qed.

Lemma marks_reset_inv (s : state) :
  inv s ->
  inv (marks_reset s) /\
  Eof_read (marks_reset s) = Eof_read s /\
  sMark (marks_reset s) = Next s /\
  pMark (marks_reset s) = Some (Next s).
Proof.
  intros I.
  unfold marks_reset, run, ii_mark_start, ii_mark_prev, bind, modify, gets.
  fields.
  split; [inv_of I|].
  repeat split.
Qed.

Lemma keeps_flush (force : bool) : keeps (ii_flush force).
Proof.
  intros s r s' I H.
  rewrite ii_flush_unfold in H.
  assert (Same : Ret r s' = Ret r s' -> s' = s ->
                 inv s' /\ (Eof_read s = false -> Eof_read s' = false))
    by (intros _ ->; auto).
  destruct (NO_MORE_CHARS s);
    [apply Same; [reflexivity|inversion H; reflexivity]|].
  destruct (Eof_read s) eqn:Eof;
    [split; [inversion H; subst; exact I|discriminate]|].
  destruct ((DANGER s <=? Next s) || force);
    [|apply Same; [reflexivity|inversion H; reflexivity]].
  destruct (left_edge_of s <? MAXLEN).
  - destruct force;
      [|apply Same; [reflexivity|inversion H; reflexivity]].
    destruct (marks_reset_inv s I) as (I' & Eof' & HS & HP).
    destruct (compact_inv (Next s) (marks_reset s) r s' I') as [I2 E2];
      try assumption.
    + destruct I as (_ & ? & ? & _); lia.
    + intros p Hp; rewrite HP in Hp; inversion Hp; lia.
    + split; [exact I2|]. intros _; congruence.
  - pose proof (left_edge_bounds s I) as Hb.
    destruct (compact_inv (left_edge_of s) s r s' I) as [I2 E2];
      try assumption; try lia.
    + intros p Hp; unfold left_edge_of; rewrite Hp; lia.
    + split; [exact I2|]. intros _; congruence.
Qed.

Lemma keeps_seed_newline : keeps seed_newline.
Proof.
  intros s v s' I H.
  unfold seed_newline, bind, modify, assign in H; fields_everywhere.
  destruct (store (Start_buf s) (END - 1) NL) as [buf|] eqn:S; [|discriminate].
  inversion H; subst; clear H.
  split; [|auto].
  pose proof (store_length _ _ _ _ S) as Len.
  destruct I as (L & S0 & E & B & P).
  unfold inv; fields.
  repeat match goal with |- _ /\ _ => split end;
    try assumption; try congruence; constants; lia.
Qed.

Lemma keeps_consume : keeps consume.
Proof.
  intros s v s' I H.
  pose proof (inv_length s I) as Hbuf.
  unfold consume, bind, gets, deref in H.
  destruct (load (Start_buf s) (Next s)) as [c|] eqn:L; [|discriminate].
  apply load_bounds in L.
  unfold modify, ret in H.
  destruct (Byte.eqb c NL); inversion H; subst; clear H;
    (split; [inv_of I|auto]).
Qed.

Lemma keeps_fetch : keeps fetch.
Proof.
  unfold fetch.
  apply keeps_bind; [apply keeps_gets|]; intros nomore.
  apply keeps_if; [apply keeps_ret|].
  apply keeps_bind; [apply keeps_gets|]; intros eof.
  apply keeps_bind;
    [apply keeps_if; [apply keeps_flush|apply keeps_ret]|]; intros r.
  apply keeps_if; [apply keeps_ret|apply keeps_consume].
Qed.

Lemma keeps_advance : keeps ii_advance.
Proof.
  unfold ii_advance.
  apply keeps_bind; [apply keeps_gets|]; intros called.
  apply keeps_bind;
    [apply keeps_if; [apply keeps_seed_newline|apply keeps_ret]|]; intros _.
  apply keeps_fetch.
Qed.

Lemma keeps_look (n : Z) : keeps (ii_look n).
Proof.
  intros s v s' I H.
  rewrite ii_look_unfold in H; cbv zeta in H.
  destruct (Eof_read s && (End_buf s <=? Next s + (n - 1)));
    [inversion H; subst; auto|].
  destruct ((Next s + (n - 1) <? 0) || (End_buf s <=? Next s + (n - 1)));
    [inversion H; subst; auto|].
  destruct (load (Start_buf s) (Next s + (n - 1))); [|discriminate].
  inversion H; subst; auto.
Qed.

Lemma keeps_pusback (n : Z) : keeps (ii_pusback n).
Proof.
  intros s v s' I H.
  pose proof (inv_length s I) as Hbuf.
  pose proof I as (_ & S & E & _).
  pose proof (pusback_loop_spec (Z.to_nat n) s Hbuf ltac:(lia) ltac:(lia)
                ltac:(lia)) as Lp.
  cbv zeta in Lp.
  remember (Z.to_nat (Z.min (Z.of_nat (Z.to_nat n)) (Next s - sMark s)))
    as m eqn:Em.
  assert (Hm : 0 <= Z.of_nat m <= Next s - sMark s) by lia.
  clear Em.
  unfold ii_pusback, bind at 1 in H.
  rewrite Lp in H.
  unfold bind at 1, gets at 1 in H; fields_everywhere.
  destruct (Next s - Z.of_nat m <? eMark s) eqn:C;
    unfold bind, modify, gets, ret in H; fields_everywhere;
    inversion H; subst; clear H;
    (split; [inv_of I|auto]).
Qed.

Lemma keeps_term : keeps ii_term.
Proof.
  unfold ii_term.
  apply keeps_bind; [apply keeps_gets|]; intros p.
  apply keeps_bind.
  - intros s v s' I H; unfold deref in H.
    destruct (load (Start_buf s) p); [|discriminate].
    inversion H; subst; auto.
  - intros c.
    apply keeps_bind; [|intros _; apply keeps_assign].
    apply keeps_modify; [intros s I; inv_of I|auto].
Qed.

Lemma keeps_unterm : keeps ii_unterm.
Proof.
  unfold ii_unterm.
  apply keeps_bind; [apply keeps_gets|]; intros t.
  apply keeps_if; [|apply keeps_ret].
  apply keeps_bind; [apply keeps_gets|]; intros p.
  apply keeps_bind; [apply keeps_assign|]; intros _.
  apply keeps_modify; [intros s I; inv_of I|auto].
Qed.

Lemma keeps_input : keeps ii_input.
Proof.
  unfold ii_input.
  apply keeps_bind; [apply keeps_gets|]; intros t.
  apply keeps_if.
  - apply keeps_bind; [apply keeps_unterm|]; intros _.
    apply keeps_bind; [apply keeps_advance|]; intros _.
    apply keeps_bind; [apply keeps_mark_end|]; intros _.
    apply keeps_term.
  - apply keeps_bind; [apply keeps_advance|]; intros _.
    apply keeps_bind; [apply keeps_mark_end|]; intros _.
    apply keeps_ret.
Qed.

Lemma keeps_uninput (c : byte) : keeps (ii_uninput c).
Proof.
  assert (K : forall ok : Z,
             keeps (if negb (ok =? 0)
                    then p <- gets Next ;; assign p c
                    else ret tt)).
  { intros ok; apply keeps_if; [|apply keeps_ret].
    apply keeps_bind; [apply keeps_gets|]; intros p; apply keeps_assign. }
  unfold ii_uninput.
  apply keeps_bind; [apply keeps_gets|]; intros t.
  apply keeps_if.
  - apply keeps_bind; [apply keeps_unterm|]; intros _.
    apply keeps_bind; [apply keeps_pusback|]; intros ok.
    apply keeps_bind; [apply K|]; intros _.
    apply keeps_term.
  - apply keeps_bind; [apply keeps_pusback|]; intros ok.
    apply K.
Qed.

Lemma keeps_looahead (n : Z) : keeps (ii_looahead n).
Proof.
  unfold ii_looahead.
  apply keeps_bind; [apply keeps_gets|]; intros t.
  apply keeps_if; [apply keeps_ret|apply keeps_look].
Qed.

Lemma keeps_flushbuf : keeps ii_flushbuf.
Proof.
  unfold ii_flushbuf.
  apply keeps_bind; [apply keeps_gets|]; intros t.
  apply keeps_bind;
    [apply keeps_if; [apply keeps_unterm|apply keeps_ret]|]; intros _.
  apply keeps_flush.
Qed.

Lemma after_ret {A : Type} (o : outcome A) (s' : state) :
  after o = Some s' -> exists v, o = Ret v s'.
Proof.
  destruct o as [v s| |]; simpl; intros H; inversion H; subst; eauto.
Qed.

Lemma exec_keeps (c : call) (s s' : state) :
  inv s -> exec c s = Some s' ->
  inv s' /\ (Eof_read s = false -> Eof_read s' = false).
Proof.
  intros I H.
  destruct c; cbn [exec] in H; apply after_ret in H as [v H];
    [ exact (keeps_newfile _ _ _ _ I H)
    | exact (keeps_gets _ _ _ _ I H)
    | exact (keeps_gets _ _ _ _ I H)
    | exact (keeps_gets _ _ _ _ I H)
    | exact (keeps_gets _ _ _ _ I H)
    | exact (keeps_gets _ _ _ _ I H)
    | exact (keeps_gets _ _ _ _ I H)
    | exact (keeps_mark_start _ _ _ I H)
    | exact (keeps_mark_end _ _ _ I H)
    | exact (keeps_move_start _ _ _ I H)
    | exact (keeps_to_mark _ _ _ I H)
    | exact (keeps_mark_prev _ _ _ I H)
    | exact (keeps_advance _ _ _ I H)
    | exact (keeps_flush _ _ _ _ I H)
    | exact (keeps_look _ _ _ _ I H)
    | exact (keeps_pusback _ _ _ _ I H)
    | exact (keeps_term _ _ _ I H)
    | exact (keeps_unterm _ _ _ I H)
    | exact (keeps_input _ _ _ I H)
    | exact (keeps_uninput _ _ _ _ I H)
    | exact (keeps_looahead _ _ _ _ I H)
    | exact (keeps_flushbuf _ _ _ I H) ].
Qed.

Lemma reachable_good (s : state) :
  reachable s -> inv s /\ Eof_read s = false.
Proof.
  induction 1 as [o|s c s' R [I E] X].
  - split; [apply initial_inv|reflexivity].
  - destruct (exec_keeps c s s' I X) as [I' E']; auto.
Qed.

(** X1: whatever functions of the module a process has called, in whatever
    order and with whatever arguments, as long as the calls returned, the
    array has its size, [0 <= sMark <= eMark <= Next <= BUFSIZE],
    [0 <= End_buf <= BUFSIZE] and a [pMark] that is set lies in
    [0, BUFSIZE]. *)
Theorem reachable_inv (s : state) : reachable s -> inv s.
Proof.
  intros R; apply (reachable_good s R).
Qed.

Lemma first_read_reachable : reachable first_read.
Proof.
  apply (reachable_call (boot ab_cd []) Advance first_read).
  - apply reachable_initial.
  - vm_compute; reflexivity.
Qed.

Lemma reachable_inv_witness : reachable first_read /\ inv first_read.
Proof.
  split; [exact first_read_reachable|].
  exact (reachable_inv first_read first_read_reachable).
Defined.




(** ** The end of the stream inside a flush *)

Lemma compact_exhausted (edge : Z) (s : state) :
  Z.of_nat (List.length (Start_buf s)) = BUFSIZE ->
  0 <= edge <= End_buf s -> End_buf s <= BUFSIZE ->
  lookup_fd (Input_file s) (os_fds (Os s)) = Some [] ->
  compact edge s = Fatal "INTERNAL ERROR, ii_flush: Buffer full, can't read.".
Proof.
  intros Hbuf Hedge Hend Lk.
  unfold compact.
  unfold bind at 1, gets at 1.
  unfold bind at 1, memcpy, memcpy_buf.
  rewrite size_t_small by lia.
  destruct (End_buf s - edge <=? Z.of_nat (List.length (Start_buf s))) eqn:E;
    [|lia].
  destruct (copy_fwd_total (Z.to_nat (End_buf s - edge)) 0 edge (Start_buf s))
    as [buf1 C]; try lia.
  rewrite C.
  destruct (need_bounds (0 + (End_buf s - edge)) ltac:(lia))
    as (Hsz & Hneed & _).
  unfold bind at 1, ii_fillbuf.
  rewrite Hsz.
  set (need := Z.quot (END - (0 + (End_buf s - edge))) MAXLEN * MAXLEN) in *.
  destruct (need <? 0) eqn:E1; [lia|].
  destruct (need =? 0) eqn:E2; [reflexivity|].
  unfold bind at 1, gets at 1.
  unfold bind at 1, read, sys_read.
  cbn [Input_file Os Start_buf set_Start_buf].
  rewrite Lk.
  replace (Z.to_nat (Z.min need (Z.of_nat (List.length (@nil byte)))))
    with 0%nat by (simpl; lia).
  reflexivity.
Qed.

(** X3: a flush that gets as far as the refill while the stream has no byte
    left ends the process with the message for a full buffer, whatever the
    state of the buffer; so does the [ii_advance] that attempts it.  The
    end of file cannot be read without this happening. *)
Theorem exhausted_stream_is_fatal (force : bool) (s : state) :
  inv s ->
  Next s <= End_buf s ->
  Eof_read s = false ->
  lookup_fd (Input_file s) (os_fds (Os s)) = Some [] ->
  force = true \/ (DANGER s <= Next s /\ MAXLEN <= left_edge_of s) ->
  ii_flush force s
  = Fatal "INTERNAL ERROR, ii_flush: Buffer full, can't read." /\
  (been_called s = true -> DANGER s <= Next s -> MAXLEN <= left_edge_of s ->
   ii_advance s
   = Fatal "INTERNAL ERROR, ii_flush: Buffer full, can't read.").
Proof.
  intros I Hnext Eof Lk Due.
  pose proof (inv_length s I) as Hbuf.
  pose proof (left_edge_bounds s I) as Hedge.
  pose proof I as (_ & S & E & B & _).
  assert (NM : NO_MORE_CHARS s = false)
    by (unfold NO_MORE_CHARS; rewrite Eof; reflexivity).
  assert (C1 : compact (left_edge_of s) s
               = Fatal "INTERNAL ERROR, ii_flush: Buffer full, can't read.")
    by (apply compact_exhausted; try assumption; lia).
  split.
  - rewrite ii_flush_unfold, NM, Eof.
    destruct Due as [->|[D R]].
    + rewrite orb_true_r.
      destruct (left_edge_of s <? MAXLEN); [|exact C1].
      destruct (marks_reset_inv s I) as (I' & _ & _ & _).
      apply compact_exhausted;
        [exact (inv_length _ I')|cbn; lia|cbn; lia|exact Lk].
    + destruct (DANGER s <=? Next s) eqn:D'; [|lia].
      simpl.
      destruct (left_edge_of s <? MAXLEN) eqn:R'; [lia|exact C1].
  - intros Hcalled D R.
    rewrite (ii_advance_called s Hcalled), fetch_unfold, NM, Eof.
    rewrite ii_flush_unfold, NM, Eof.
    destruct (DANGER s <=? Next s) eqn:D'; [|lia].
    simpl.
    destruct (left_edge_of s <? MAXLEN) eqn:R'; [lia|].
    rewrite C1; reflexivity.
Qed.

Lemma exhausted_stream_is_fatal_witness :
  inv first_read /\
  Next first_read <= End_buf first_read /\
  Eof_read first_read = false /\
  lookup_fd (Input_file first_read) (os_fds (Os first_read)) = Some [] /\
  (true = true \/
   (DANGER first_read <= Next first_read /\
    MAXLEN <= left_edge_of first_read)) /\
  ii_flush true first_read
  = Fatal "INTERNAL ERROR, ii_flush: Buffer full, can't read." /\
  (been_called first_read = true -> DANGER first_read <= Next first_read ->
   MAXLEN <= left_edge_of first_read ->
   ii_advance first_read
   = Fatal "INTERNAL ERROR, ii_flush: Buffer full, can't read.").
Proof.
  assert (I : inv first_read) by concrete.
  assert (N : Next first_read <= End_buf first_read)
    by (vm_compute; intros; discriminate).
  assert (E : Eof_read first_read = false) by (vm_compute; reflexivity).
  assert (L : lookup_fd (Input_file first_read) (os_fds (Os first_read))
              = Some []) by (vm_compute; reflexivity).
  assert (D : true = true \/
              (DANGER first_read <= Next first_read /\
               MAXLEN <= left_edge_of first_read)) by (left; reflexivity).
  split; [exact I|]. split; [exact N|]. split; [exact E|].
  split; [exact L|]. split; [exact D|].
  exact (exhausted_stream_is_fatal true first_read I N E L D).
Defined.

(** ** Filling, case by case *)

Lemma window_eq (buf : list byte) (k : nat) :
  forall p l,
    List.length l = k ->
    (forall i, (i < k)%nat -> load buf (p + Z.of_nat i) = nth_error l i) ->
    window buf p k = l.
Proof.
  induction k as [|k IH]; intros p l Hl H.
  - destruct l; [reflexivity|discriminate].
  - destruct l as [|b t]; [discriminate|].
    cbn [window].
    pose proof (H 0%nat ltac:(lia)) as H0.
    rewrite Z.add_0_r in H0; simpl in H0; rewrite H0.
    f_equal.
    apply IH; [simpl in Hl; lia|].
    intros i Hi.
    specialize (H (S i) ltac:(lia)); simpl nth_error in H.
    rewrite <- H; f_equal; lia.
Qed.

Lemma lookup_fd_head (fd : Z) (d : list byte) (tab : list (Z * list byte)) :
  lookup_fd fd ((fd, d) :: tab) = Some d.
Proof. simpl; rewrite Z.eqb_refl; reflexivity. Qed.

(** X4: [ii_fillbuf] asks for the largest whole number of [MAXLEN]-byte
    units that fits between [starting_at] and the end of the array.  With
    no room for a unit it returns 0 and touches nothing, without reading.
    Otherwise it takes what the stream has, up to the request, puts it at
    [starting_at], sets [End_buf] just behind it, leaves the rest of the
    stream for the next read and the rest of the array as it was, and turns
    [Eof_read] on exactly when it got no byte. *)
Theorem fillbuf_reads_whole_units
  (c : Z) (s : state) (got : Z) (s' : state) :
  0 <= c <= BUFSIZE ->
  ii_fillbuf c s = Ret got s' ->
  exists units,
    0 <= units /\
    END - c - MAXLEN < units * MAXLEN <= END - c /\
    0 <= got <= units * MAXLEN /\
    (units = 0 -> got = 0 /\ s' = s) /\
    (0 < units ->
     exists d,
       lookup_fd (Input_file s) (os_fds (Os s)) = Some d /\
       got = Z.min (units * MAXLEN) (Z.of_nat (List.length d)) /\
       End_buf s' = c + got /\
       window (Start_buf s') c (Z.to_nat got) = firstn (Z.to_nat got) d /\
       lookup_fd (Input_file s') (os_fds (Os s'))
       = Some (skipn (Z.to_nat got) d) /\
       Eof_read s' = (if got =? 0 then true else Eof_read s) /\
       (forall q, q < c \/ c + got <= q ->
                  load (Start_buf s') q = load (Start_buf s) q)).
Proof.
  intros Hc H.
  destruct (need_bounds c Hc) as (Hsz & Hneed & _).
  exists (Z.quot (END - c) MAXLEN).
  assert (Hu : 0 <= Z.quot (END - c) MAXLEN
               /\ END - c - MAXLEN < Z.quot (END - c) MAXLEN * MAXLEN)
    by (constants; Z.to_euclidean_division_equations; lia).
  unfold ii_fillbuf in H.
  rewrite Hsz in H.
  set (units := Z.quot (END - c) MAXLEN) in *.
  assert (HM : 0 < MAXLEN) by (constants; lia).
  destruct (units * MAXLEN <? 0) eqn:E1; [lia|].
  destruct (units * MAXLEN =? 0) eqn:E2.
  - unfold ret in H; inversion H; subst.
    split; [lia|]. split; [lia|]. split; [lia|].
    split; [auto|]. intros; nia.
  - unfold bind at 1, gets at 1 in H.
    unfold bind at 1, read, sys_read in H.
    destruct (lookup_fd (Input_file s) (os_fds (Os s))) as [d|] eqn:Lk.
    + set (k := Z.to_nat (Z.min (units * MAXLEN) (Z.of_nat (List.length d))))
        in *.
      assert (Hk : Z.of_nat (List.length (firstn k d))
                   = Z.min (units * MAXLEN) (Z.of_nat (List.length d)))
        by (rewrite length_firstn; subst k; lia).
      rewrite Hk in H.
      destruct (store_block (Start_buf s) c (firstn k d)) as [buf'|] eqn:SB;
        [|discriminate].
      destruct (store_block_spec _ _ _ _ SB) as (_ & In & Out).
      destruct (Z.min (units * MAXLEN) (Z.of_nat (List.length d)) =? -1)
        eqn:E3; [lia|].
      unfold bind, modify, ret in H.
      assert (Hgot : got = Z.min (units * MAXLEN) (Z.of_nat (List.length d))
                     /\ Start_buf s' = buf'
                     /\ End_buf s' = c + got
                     /\ Input_file s' = Input_file s
                     /\ os_fds (Os s')
                        = (Input_file s, skipn k d)
                            :: remove_fd (Input_file s) (os_fds (Os s))
                     /\ Eof_read s' = (if got =? 0 then true else Eof_read s)).
      { destruct (Z.min (units * MAXLEN) (Z.of_nat (List.length d)) =? 0)
          eqn:E4; inversion H; subst got s'; fields; rewrite E4;
          repeat split; reflexivity. }
      destruct Hgot as (Hg & HB & HE & HI & HO & HEof).
      assert (Hkg : k = Z.to_nat got) by (subst k; rewrite Hg; reflexivity).
      split; [lia|]. split; [lia|]. split; [lia|].
      split; [intros U; rewrite U in E2; simpl in E2; discriminate|].
      intros _; exists d.
      split; [reflexivity|]. split; [exact Hg|]. split; [exact HE|].
      rewrite <- Hkg.
      split.
      { rewrite HB; apply window_eq.
        - rewrite Hkg; rewrite length_firstn; lia.
        - intros i Hi; apply In.
          rewrite length_firstn; lia. }
      split; [rewrite HI, HO; apply lookup_fd_head|].
      split; [exact HEof|].
      intros q Hq; rewrite HB; apply Out.
      rewrite Hk, <- Hg; exact Hq.
    + cbn in H.
      destruct (store_block (Start_buf s) c []) eqn:SB; [|discriminate].
      cbn in H; discriminate.
Qed.

Lemma fillbuf_reads_whole_units_witness :
  0 <= 1 <= BUFSIZE /\
  ii_fillbuf 1 seeded = Ret 5 (run (ii_fillbuf 1) seeded) /\
  exists units,
    0 <= units /\
    END - 1 - MAXLEN < units * MAXLEN <= END - 1 /\
    0 <= 5 <= units * MAXLEN /\
    (units = 0 -> 5 = 0 /\ run (ii_fillbuf 1) seeded = seeded) /\
    (0 < units ->
     exists d,
       lookup_fd (Input_file seeded) (os_fds (Os seeded)) = Some d /\
       5 = Z.min (units * MAXLEN) (Z.of_nat (List.length d)) /\
       End_buf (run (ii_fillbuf 1) seeded) = 1 + 5 /\
       window (Start_buf (run (ii_fillbuf 1) seeded)) 1 (Z.to_nat 5)
       = firstn (Z.to_nat 5) d /\
       lookup_fd (Input_file (run (ii_fillbuf 1) seeded))
         (os_fds (Os (run (ii_fillbuf 1) seeded)))
       = Some (skipn (Z.to_nat 5) d) /\
       Eof_read (run (ii_fillbuf 1) seeded)
       = (if 5 =? 0 then true else Eof_read seeded) /\
       (forall q, q < 1 \/ 1 + 5 <= q ->
                  load (Start_buf (run (ii_fillbuf 1) seeded)) q
                  = load (Start_buf seeded) q)).
Proof.
  assert (C : 0 <= 1 <= BUFSIZE) by (constants; lia).
  assert (F : ii_fillbuf 1 seeded = Ret 5 (run (ii_fillbuf 1) seeded))
    by (vm_compute; reflexivity).
  split; [exact C|]. split; [exact F|].
  exact (fillbuf_reads_whole_units 1 seeded 5 _ C F).
Defined.



(** ** Lexemes *)

Lemma ii_mark_start_run (s : state) :
  ii_mark_start s
  = Ret (Next s)
      (set_eMark (Next s) (set_sMark (Next s) (set_Mline (Lineno s) s))).
Proof. reflexivity. Qed.

Lemma ii_mark_end_run (s : state) :
  ii_mark_end s = Ret (Next s) (set_eMark (Next s) (set_Mline (Lineno s) s)).
Proof. reflexivity. Qed.

Lemma ii_to_mark_run (s : state) :
  ii_to_mark s = Ret (eMark s) (set_Next (eMark s) (set_Lineno (Mline s) s)).
Proof. reflexivity. Qed.

(** X6: marking the start, reading [k] characters without a flush being
    attempted and marking the end delimits exactly what was read:
    [ii_text] is where the cursor was, [ii_length] is [k], and the [k]
    bytes there are the values [ii_advance] returned. *)
Theorem lexeme_is_what_was_read (k : nat) (s : state) :
  inv s ->
  been_called s = true ->
  Next s + Z.of_nat k <= End_buf s ->
  Eof_read s = true \/ Next s + Z.of_nat k <= DANGER s ->
  exists bs s',
    (ii_mark_start ;; bs <- advances k ;; ii_mark_end ;; ret bs) s
    = Ret bs s' /\
    ii_text s' = Ret (Next s) s' /\
    ii_length s' = Ret (Z.of_nat k) s' /\
    List.length bs = k /\
    bs = map int_of_uchar (window (Start_buf s') (Next s) k) /\
    Next s' = Next s + Z.of_nat k.
Proof.
  intros I Hcalled Hk Q.
  pose proof (inv_length s I) as Hbuf.
  destruct I as (_ & S & E & B & _).
  set (sm := set_eMark (Next s) (set_sMark (Next s) (set_Mline (Lineno s) s))).
  assert (A : advances k sm = _)
    by (apply (advances_quiet k sm); subst sm; fields;
        first [assumption | lia]).
  unfold bind at 1; rewrite ii_mark_start_run; fold sm.
  unfold bind at 1; rewrite A.
  unfold bind at 1; rewrite ii_mark_end_run.
  unfold ret.
  eexists _, _; split; [reflexivity|].
  unfold ii_text, ii_length, gets; subst sm; fields.
  split; [reflexivity|].
  split; [apply Ret_state_value; lia|].
  split; [rewrite length_map; apply window_length; lia|].
  split; reflexivity.
Qed.

Lemma lexeme_is_what_was_read_witness :
  inv at_null /\
  been_called at_null = true /\
  Next at_null + Z.of_nat 3 <= End_buf at_null /\
  (Eof_read at_null = true \/ Next at_null + Z.of_nat 3 <= DANGER at_null) /\
  exists bs s',
    (ii_mark_start ;; bs <- advances 3 ;; ii_mark_end ;; ret bs) at_null
    = Ret bs s' /\
    ii_text s' = Ret (Next at_null) s' /\
    ii_length s' = Ret (Z.of_nat 3) s' /\
    List.length bs = 3%nat /\
    bs = map int_of_uchar (window (Start_buf s') (Next at_null) 3) /\
    Next s' = Next at_null + Z.of_nat 3.
Proof.
  assert (I : inv at_null) by concrete.
  assert (C : been_called at_null = true) by (vm_compute; reflexivity).
  assert (N : Next at_null + Z.of_nat 3 <= End_buf at_null)
    by (vm_compute; intros; discriminate).
  assert (Q : Eof_read at_null = true
              \/ Next at_null + Z.of_nat 3 <= DANGER at_null)
    by (right; vm_compute; intros; discriminate).
  split; [exact I|]. split; [exact C|]. split; [exact N|]. split; [exact Q|].
  exact (lexeme_is_what_was_read 3 at_null I C N Q).
Defined.

(** X7: [ii_to_mark] undoes reading: after [ii_mark_end], [k] characters
    read without a flush being attempted and [ii_to_mark], the cursor and
    the line number are what they were at the mark, and reading [k]
    characters again returns the same values and ends in the very same
    state, whatever the bytes are (null bytes included). *)
Theorem to_mark_rewinds (k : nat) (s : state) :
  inv s ->
  been_called s = true ->
  Next s + Z.of_nat k <= End_buf s ->
  Eof_read s = true \/ Next s + Z.of_nat k <= DANGER s ->
  exists bs s1 s2,
    (ii_mark_end ;; advances k) s = Ret bs s1 /\
    ii_to_mark s1 = Ret (Next s) s2 /\
    Next s2 = Next s /\ Lineno s2 = Lineno s /\
    advances k s2 = Ret bs s1.
Proof.
  intros I Hcalled Hk Q.
  pose proof (inv_length s I) as Hbuf.
  destruct I as (_ & S & E & B & _).
  set (sm := set_eMark (Next s) (set_Mline (Lineno s) s)).
  assert (A : advances k sm = _)
    by (apply (advances_quiet k sm); subst sm; fields;
        first [assumption | lia]).
  unfold bind at 1; rewrite ii_mark_end_run; fold sm.
  rewrite A.
  eexists _, _, sm; split; [reflexivity|].
  split.
  - rewrite ii_to_mark_run; subst sm; fields.
    apply Ret_state; destruct s; reflexivity.
  - split; [reflexivity|]. split; [reflexivity|]. exact A.
Qed.

Lemma to_mark_rewinds_witness :
  inv at_null /\
  been_called at_null = true /\
  Next at_null + Z.of_nat 3 <= End_buf at_null /\
  (Eof_read at_null = true \/ Next at_null + Z.of_nat 3 <= DANGER at_null) /\
  exists bs s1 s2,
    (ii_mark_end ;; advances 3) at_null = Ret bs s1 /\
    ii_to_mark s1 = Ret (Next at_null) s2 /\
    Next s2 = Next at_null /\ Lineno s2 = Lineno at_null /\
    advances 3 s2 = Ret bs s1.
Proof.
  assert (I : inv at_null) by concrete.
  assert (C : been_called at_null = true) by (vm_compute; reflexivity).
  assert (N : Next at_null + Z.of_nat 3 <= End_buf at_null)
    by (vm_compute; intros; discriminate).
  assert (Q : Eof_read at_null = true
              \/ Next at_null + Z.of_nat 3 <= DANGER at_null)
    by (right; vm_compute; intros; discriminate).
  split; [exact I|]. split; [exact C|]. split; [exact N|]. split; [exact Q|].
  exact (to_mark_rewinds 3 at_null I C N Q).
Defined.

(** X8: however often [ii_move_start] is called, the start mark stops at
    the end mark: of [n] calls, the first [min n (eMark - sMark)] move the
    mark by one each and the others return [NULL] and do nothing. *)
Theorem move_start_stops_at_the_end_mark (n : nat) (s : state) :
  sMark s <= eMark s ->
  exists s',
    move_starts n s
    = Ret (Z.to_nat (Z.min (Z.of_nat n) (eMark s - sMark s))) s' /\
    s' = set_sMark (sMark s + Z.min (Z.of_nat n) (eMark s - sMark s)) s /\
    sMark s' <= eMark s' /\
    (eMark s - sMark s <= Z.of_nat n -> ii_move_start s' = Ret None s').
Proof.
  revert s; induction n as [|n IH]; intros s Hle.
  - exists s. cbn [move_starts]; unfold ret.
    replace (Z.min (Z.of_nat 0) (eMark s - sMark s)) with 0 by lia.
    split; [reflexivity|].
    split; [destruct s; cbn; f_equal; lia|].
    split; [exact Hle|].
    intros Hn; unfold ii_move_start, bind, gets, ret.
    destruct (eMark s <=? sMark s) eqn:C; [reflexivity|lia].
  - cbn [move_starts]. unfold bind at 1.
    unfold ii_move_start at 1, bind at 1, gets at 1.
    destruct (eMark s <=? sMark s) eqn:C.
    + unfold ret at 1.
      destruct (IH s Hle) as (s' & R & Es & Hs' & Stop).
      unfold bind; rewrite R; unfold ret.
      exists s'.
      split; [apply f_equal2; [f_equal; lia|reflexivity]|].
      split; [rewrite Es; f_equal; lia|].
      split; [exact Hs'|].
      intros _; apply Stop; lia.
    + unfold bind at 1, modify at 1.
      unfold bind at 1, gets at 1, ret at 1.
      destruct (IH (set_sMark (sMark s + 1) s) ltac:(fields; lia))
        as (s' & R & Es & Hs' & Stop).
      unfold bind; rewrite R; unfold ret.
      fields_everywhere.
      exists s'.
      split; [apply f_equal2; [lia|reflexivity]|].
      split; [rewrite Es; destruct s; cbn; f_equal; lia|].
      split; [exact Hs'|].
      intros Hn; apply Stop; lia.
Qed.

Lemma move_start_stops_at_the_end_mark_witness :
  sMark four_marked <= eMark four_marked /\
  exists s',
    move_starts 9 four_marked
    = Ret (Z.to_nat (Z.min (Z.of_nat 9)
                       (eMark four_marked - sMark four_marked))) s' /\
    s' = set_sMark
           (sMark four_marked
            + Z.min (Z.of_nat 9) (eMark four_marked - sMark four_marked))
           four_marked /\
    sMark s' <= eMark s' /\
    (eMark four_marked - sMark four_marked <= Z.of_nat 9 ->
     ii_move_start s' = Ret None s').
Proof.
  assert (H : sMark four_marked <= eMark four_marked)
    by (vm_compute; intros; discriminate).
  split; [exact H|].
  exact (move_start_stops_at_the_end_mark 9 four_marked H).
Defined.

(** X9: while [ii_advance] stays below the danger zone (or the end of file
    has been read and text is left) it does no input and leaves buffer,
    marks and extent alone: [k] calls return the [k] bytes under the
    cursor, move the cursor by [k] and raise the line number by the number
    of newlines among them. *)
Theorem advance_reads_the_buffer (k : nat) (s : state) :
  inv s ->
  been_called s = true ->
  Next s + Z.of_nat k <= End_buf s ->
  Eof_read s = true \/ Next s + Z.of_nat k <= DANGER s ->
  exists s',
    advances k s
    = Ret (map int_of_uchar (window (Start_buf s) (Next s) k)) s' /\
    List.length (window (Start_buf s) (Next s) k) = k /\
    Next s' = Next s + Z.of_nat k /\
    Lineno s' = Lineno s + count is_newline (window (Start_buf s) (Next s) k) /\
    Start_buf s' = Start_buf s /\ Os s' = Os s /\ End_buf s' = End_buf s /\
    sMark s' = sMark s /\ eMark s' = eMark s /\ pMark s' = pMark s /\
    Mline s' = Mline s /\ Eof_read s' = Eof_read s.
Proof.
  intros I Hcalled Hk Q.
  pose proof (inv_length s I) as Hbuf.
  destruct I as (_ & S & E & B & _).
  rewrite (advances_quiet k s Hcalled Hbuf ltac:(lia) Hk ltac:(lia) Q).
  eexists; split; [reflexivity|].
  split; [apply window_length; lia|].
  fields; repeat split; reflexivity.
Qed.

Lemma advance_reads_the_buffer_witness :
  inv at_null /\
  been_called at_null = true /\
  Next at_null + Z.of_nat 3 <= End_buf at_null /\
  (Eof_read at_null = true \/ Next at_null + Z.of_nat 3 <= DANGER at_null) /\
  exists s',
    advances 3 at_null
    = Ret (map int_of_uchar (window (Start_buf at_null) (Next at_null) 3)) s' /\
    List.length (window (Start_buf at_null) (Next at_null) 3) = 3%nat /\
    Next s' = Next at_null + Z.of_nat 3 /\
    Lineno s'
    = Lineno at_null
      + count is_newline (window (Start_buf at_null) (Next at_null) 3) /\
    Start_buf s' = Start_buf at_null /\ Os s' = Os at_null /\
    End_buf s' = End_buf at_null /\
    sMark s' = sMark at_null /\ eMark s' = eMark at_null /\
    pMark s' = pMark at_null /\
    Mline s' = Mline at_null /\ Eof_read s' = Eof_read at_null.
Proof.
  assert (I : inv at_null) by concrete.
  assert (C : been_called at_null = true) by (vm_compute; reflexivity).
  assert (N : Next at_null + Z.of_nat 3 <= End_buf at_null)
    by (vm_compute; intros; discriminate).
  assert (Q : Eof_read at_null = true
              \/ Next at_null + Z.of_nat 3 <= DANGER at_null)
    by (right; vm_compute; intros; discriminate).
  split; [exact I|]. split; [exact C|]. split; [exact N|]. split; [exact Q|].
  exact (advance_reads_the_buffer 3 at_null I C N Q).
Defined.

(** ** Looking at and around the cursor *)

Lemma consume_ret (s : state) (a : Z) (s' : state) :
  consume s = Ret a s' ->
  exists c,
    load (Start_buf s) (Next s) = Some c /\ a = int_of_uchar c /\
    Start_buf s' = Start_buf s /\ Next s' = Next s + 1 /\
    End_buf s' = End_buf s /\ Eof_read s' = Eof_read s.
Proof.
  unfold consume, bind, gets, deref.
  destruct (load (Start_buf s) (Next s)) as [c|]; [|discriminate].
  unfold modify, ret.
  destruct (Byte.eqb c NL); intros H; inversion H; subst;
    exists c; fields; repeat split; reflexivity.
Qed.

Lemma ii_look_at (n : Z) (s : state) (c : byte) :
  load (Start_buf s) (Next s + (n - 1)) = Some c ->
  Next s + (n - 1) < End_buf s ->
  ii_look n s = Ret (int_of_uchar c) s.
Proof.
  intros L Hlt.
  rewrite ii_look_unfold; cbv zeta.
  pose proof (load_bounds _ _ _ L) as Hb.
  destruct (End_buf s <=? Next s + (n - 1)) eqn:E; [lia|].
  rewrite andb_false_r.
  destruct (Next s + (n - 1) <? 0) eqn:E0; [lia|].
  simpl; rewrite L; reflexivity.
Qed.

(** X10: [ii_look 0] is the character just read: after an [ii_advance]
    that delivered a character (it was not at the end of input and did not
    return -1), [ii_look 0] returns that same value, also when the advance
    went through a flush that moved the text. *)
Theorem look_zero_is_the_last_character (s : state) (a : Z) (s' : state) :
  inv s ->
  been_called s = true ->
  Next s <= End_buf s ->
  NO_MORE_CHARS s = false ->
  ii_advance s = Ret a s' ->
  a <> -1 ->
  ii_look 0 s' = Ret a s'.
Proof.
  intros I Hcalled Hnext NM H Ha.
  pose proof (inv_length s I) as Hbuf.
  pose proof (left_edge_bounds s I) as Hedge.
  pose proof I as (_ & S & E & B & _).
  rewrite (ii_advance_called s Hcalled), fetch_unfold, NM in H.
  assert (Done : forall s1,
             Next s1 < End_buf s1 -> consume s1 = Ret a s' ->
             ii_look 0 s' = Ret a s').
  { intros s1 Hlt C.
    destruct (consume_ret s1 a s' C) as (c & L & -> & HB & HN & HE & _).
    apply ii_look_at; rewrite ?HB, ?HN, ?HE;
      replace (Next s1 + 1 + (0 - 1)) with (Next s1) by lia;
      assumption. }
  destruct (Eof_read s) eqn:Eof.
  - apply (Done s); [|exact H].
    unfold NO_MORE_CHARS in NM; rewrite Eof in NM; simpl in NM; lia.
  - rewrite ii_flush_unfold, NM, Eof, orb_false_r in H.
    destruct (DANGER s <=? Next s) eqn:D.
    + destruct (left_edge_of s <? MAXLEN) eqn:R.
      * simpl in H; inversion H; lia.
      * destruct (compact (left_edge_of s) s) as [r s1| |] eqn:C;
          try discriminate.
        destruct (compact_ret (left_edge_of s) s r s1 Hbuf
                    ltac:(lia) ltac:(lia) C)
          as (-> & _ & d & got & _ & Hgot & _ & HE & _ & HN & _).
        simpl in H.
        apply (Done s1); [lia|exact H].
    + simpl in H.
      apply (Done s); [unfold DANGER in D; constants; lia|exact H].
Qed.

Lemma look_zero_is_the_last_character_witness :
  inv at_null /\
  been_called at_null = true /\
  Next at_null <= End_buf at_null /\
  NO_MORE_CHARS at_null = false /\
  ii_advance at_null = Ret 0 past_null /\
  0 <> -1 /\
  ii_look 0 past_null = Ret 0 past_null.
Proof.
  assert (I : inv at_null) by concrete.
  assert (C : been_called at_null = true) by (vm_compute; reflexivity).
  assert (N : Next at_null <= End_buf at_null)
    by (vm_compute; intros; discriminate).
  assert (M : NO_MORE_CHARS at_null = false) by (vm_compute; reflexivity).
  assert (A : ii_advance at_null = Ret 0 past_null)
    by (vm_compute; reflexivity).
  assert (D : 0 <> -1) by lia.
  split; [exact I|]. split; [exact C|]. split; [exact N|].
  split; [exact M|]. split; [exact A|]. split; [exact D|].
  exact (look_zero_is_the_last_character at_null 0 past_null I C N M A D).
Defined.

(** ** Through the terminator *)

Lemma term_then_unterm (s : state) :
  Z.of_nat (List.length (Start_buf s)) = BUFSIZE ->
  0 <= Next s < BUFSIZE ->
  Termchar s = 0 ->
  exists b s1,
    load (Start_buf s) (Next s) = Some b /\
    ii_term s = Ret tt s1 /\
    Termchar s1 = int_of_uchar b /\
    Next s1 = Next s /\ End_buf s1 = End_buf s /\ Eof_read s1 = Eof_read s /\
    load (Start_buf s1) (Next s) = Some NUL /\
    (b = NUL -> s1 = s) /\
    (b <> NUL -> Termchar s1 <> 0 /\ ii_unterm s1 = Ret tt s).
Proof.
  intros Hbuf Hnext T0.
  destruct (ii_term_runs s Hbuf Hnext) as (b & L & T).
  pose proof (load_nth_error _ _ _ L) as N.
  assert (Hst : store (Start_buf s) (Next s) NUL
                = Some (upd (Start_buf s) (Z.to_nat (Next s)) NUL))
    by (apply store_inside; lia).
  eexists b, _; split; [exact L|]. split; [exact T|].
  fields.
  split; [reflexivity|]. split; [reflexivity|]. split; [reflexivity|].
  split; [reflexivity|].
  split; [apply (load_store_same _ _ _ _ Hst)|].
  split.
  - intros ->.
    rewrite (upd_same _ _ _ N).
    change (int_of_uchar NUL) with 0; rewrite <- T0.
    destruct s; reflexivity.
  - intros Hb.
    assert (NZ : int_of_uchar b <> 0)
      by (intros Z0; apply Hb; apply int_of_uchar_zero; exact Z0).
    split; [exact NZ|].
    unfold ii_unterm, bind, gets, assign, modify; fields.
    destruct (int_of_uchar b =? 0) eqn:E; [lia|]; simpl.
    rewrite store_inside by (rewrite upd_length; lia).
    rewrite uchar_of_int_of_uchar, upd_upd, (upd_same _ _ _ N).
    fields. rewrite <- T0.
    destruct s; reflexivity.
Qed.

(** X11: [ii_looahead 1] sees through the terminator: where a byte is
    buffered under the cursor, [ii_look 1] before [ii_term] and
    [ii_looahead 1] after it return the same value, whether the byte is
    null or not. *)
Theorem looahead_sees_through_the_terminator (s : state) :
  inv s ->
  Next s < End_buf s ->
  Termchar s = 0 ->
  exists v s1,
    ii_look 1 s = Ret v s /\
    ii_term s = Ret tt s1 /\
    ii_look 1 s1 = Ret 0 s1 /\
    ii_looahead 1 s1 = Ret v s1.
Proof.
  intros I Hnext T0.
  pose proof (inv_length s I) as Hbuf.
  destruct I as (_ & S & E & B & _).
  destruct (term_then_unterm s Hbuf ltac:(lia) T0)
    as (b & s1 & L & T & HT & HN & HE & _ & L1 & _ & _).
  exists (int_of_uchar b), s1.
  split; [apply ii_look_at; replace (Next s + (1 - 1)) with (Next s) by lia;
          assumption|].
  split; [exact T|].
  assert (K : ii_look 1 s1 = Ret 0 s1).
  { change 0 with (int_of_uchar NUL).
    apply ii_look_at; rewrite ?HN, ?HE;
      replace (Next s + (1 - 1)) with (Next s) by lia; assumption. }
  split; [exact K|].
  unfold ii_looahead, bind, gets, ret; rewrite HT; simpl.
  destruct (int_of_uchar b =? 0) eqn:Z0; simpl.
  - apply Z.eqb_eq in Z0; rewrite Z0; exact K.
  - reflexivity.
Qed.

Lemma looahead_sees_through_the_terminator_witness :
  inv first_read /\
  Next first_read < End_buf first_read /\
  Termchar first_read = 0 /\
  exists v s1,
    ii_look 1 first_read = Ret v first_read /\
    ii_term first_read = Ret tt s1 /\
    ii_look 1 s1 = Ret 0 s1 /\
    ii_looahead 1 s1 = Ret v s1.
Proof.
  assert (I : inv first_read) by concrete.
  assert (N : Next first_read < End_buf first_read)
    by (vm_compute; reflexivity).
  assert (T : Termchar first_read = 0) by (vm_compute; reflexivity).
  split; [exact I|]. split; [exact N|]. split; [exact T|].
  exact (looahead_sees_through_the_terminator first_read I N T).
Defined.

(** X12: [ii_term] followed by [ii_input] is [ii_advance], [ii_mark_end]
    and [ii_term] again on the text as it was, provided the byte that the
    terminator replaced is not null; when that byte is null, [ii_input]
    advances and marks the end but does not terminate the text again. *)
Theorem input_moves_the_terminator (s : state) :
  Z.of_nat (List.length (Start_buf s)) = BUFSIZE ->
  0 <= Next s < BUFSIZE ->
  Termchar s = 0 ->
  exists b,
    load (Start_buf s) (Next s) = Some b /\
    (b <> NUL ->
     (ii_term ;; ii_input) s = (ii_advance ;; ii_mark_end ;; ii_term) s) /\
    (b = NUL ->
     (ii_term ;; ii_input) s = (ii_advance ;; ii_mark_end ;; ret tt) s).
Proof.
  intros Hbuf Hnext T0.
  destruct (term_then_unterm s Hbuf Hnext T0)
    as (b & s1 & L & T & HT & _ & _ & _ & _ & Hnul & Hnot).
  exists b; split; [exact L|]. split.
  - intros Hb.
    destruct (Hnot Hb) as [NZ U].
    unfold bind at 1; rewrite T.
    unfold ii_input, bind at 1, gets at 1.
    destruct (Termchar s1 =? 0) eqn:E; [lia|]; simpl.
    unfold bind at 1; rewrite U; reflexivity.
  - intros Hb.
    unfold bind at 1; rewrite T, (Hnul Hb).
    unfold ii_input, bind at 1, gets at 1.
    rewrite T0; reflexivity.
Qed.

Lemma input_moves_the_terminator_witness :
  Z.of_nat (List.length (Start_buf first_read)) = BUFSIZE /\
  0 <= Next first_read < BUFSIZE /\
  Termchar first_read = 0 /\
  exists b,
    load (Start_buf first_read) (Next first_read) = Some b /\
    (b <> NUL ->
     (ii_term ;; ii_input) first_read
     = (ii_advance ;; ii_mark_end ;; ii_term) first_read) /\
    (b = NUL ->
     (ii_term ;; ii_input) first_read
     = (ii_advance ;; ii_mark_end ;; ret tt) first_read).
Proof.
  assert (B : Z.of_nat (List.length (Start_buf first_read)) = BUFSIZE)
    by (vm_compute; reflexivity).
  assert (N : 0 <= Next first_read < BUFSIZE)
    by (split; vm_compute; [intros; discriminate|reflexivity]).
  assert (T : Termchar first_read = 0) by (vm_compute; reflexivity).
  split; [exact B|]. split; [exact N|]. split; [exact T|].
  exact (input_moves_the_terminator first_read B N T).
Defined.



(** ** Putting a character back *)

Lemma ii_pusback_one (s : state) :
  Z.of_nat (List.length (Start_buf s)) = BUFSIZE ->
  0 <= sMark s -> sMark s < Next s -> Next s <= BUFSIZE ->
  exists s',
    ii_pusback 1 s = Ret (if sMark s <? Next s - 1 then 1 else 0) s' /\
    Next s' = Next s - 1 /\ sMark s' = sMark s /\
    Start_buf s' = Start_buf s /\ End_buf s' = End_buf s /\
    Eof_read s' = Eof_read s /\ Termchar s' = Termchar s.
Proof.
  intros Hbuf H0 Hlt Hhi.
  pose proof (pusback_loop_spec 1 s Hbuf H0 ltac:(lia) Hhi) as L.
  cbv zeta in L.
  replace (Z.to_nat (Z.min (Z.of_nat 1) (Next s - sMark s))) with 1%nat in L
    by lia.
  change (Z.of_nat 1) with 1 in L.
  unfold ii_pusback, bind at 1.
  change (Z.to_nat 1) with 1%nat.
  rewrite L.
  unfold bind at 1, gets at 1; fields.
  destruct (Next s - 1 <? eMark s);
    unfold bind, modify, gets, ret; fields;
    eexists; (split; [reflexivity|]); fields; repeat split; reflexivity.
Qed.

(** X14: [ii_uninput c] with no terminator active.  With at least two
    characters read since the start mark, the cursor steps back one place
    and [c] is written there, so that [ii_look 1] returns [c].  With
    exactly one character read since the start mark the cursor steps back
    onto the start mark but [c] is not written: the buffer is as it was.
    With the cursor on the start mark nothing changes at all. *)
Theorem uninput_writes_only_after_the_start_mark (c : byte) (s : state) :
  inv s ->
  Next s <= End_buf s ->
  Termchar s = 0 ->
  (sMark s + 1 < Next s ->
   exists s',
     ii_uninput c s = Ret tt s' /\ Next s' = Next s - 1 /\
     load (Start_buf s') (Next s') = Some c /\
     ii_look 1 s' = Ret (int_of_uchar c) s') /\
  (Next s = sMark s + 1 ->
   exists s',
     ii_uninput c s = Ret tt s' /\ Next s' = sMark s /\
     Start_buf s' = Start_buf s) /\
  (Next s = sMark s -> ii_uninput c s = Ret tt s).
Proof.
  intros I Hnext T0.
  pose proof (inv_length s I) as Hbuf.
  destruct I as (_ & S & E & B & _).
  split; [|split].
  - intros Hlt.
    destruct (ii_pusback_one s Hbuf ltac:(lia) ltac:(lia) ltac:(lia))
      as (s1 & P & HN & _ & HB & HE & _ & _).
    destruct (sMark s <? Next s - 1) eqn:C; [|lia].
    unfold ii_uninput, bind at 1, gets at 1; rewrite T0; simpl.
    unfold bind at 1; rewrite P; simpl.
    unfold bind, gets, assign.
    assert (St : store (Start_buf s1) (Next s1) c
                 = Some (upd (Start_buf s1) (Z.to_nat (Next s1)) c))
      by (apply store_inside; rewrite HB, HN; lia).
    rewrite St.
    eexists; split; [reflexivity|]; fields.
    split; [exact HN|].
    split; [apply (load_store_same _ _ _ _ St)|].
    apply ii_look_at; fields.
    + replace (Next s1 + (1 - 1)) with (Next s1) by lia.
      apply (load_store_same _ _ _ _ St).
    + lia.
  - intros Heq.
    destruct (ii_pusback_one s Hbuf ltac:(lia) ltac:(lia) ltac:(lia))
      as (s1 & P & HN & _ & HB & _).
    destruct (sMark s <? Next s - 1) eqn:C; [lia|].
    unfold ii_uninput, bind at 1, gets at 1; rewrite T0; simpl.
    unfold bind at 1; rewrite P; simpl.
    unfold ret; exists s1; split; [reflexivity|].
    split; [lia|exact HB].
  - intros Heq.
    unfold ii_uninput, bind at 1, gets at 1; rewrite T0; simpl.
    unfold bind at 1, ii_pusback, bind at 1.
    change (Z.to_nat 1) with 1%nat.
    cbn [pusback_loop]; unfold bind at 1, gets at 1.
    destruct (sMark s <? Next s) eqn:C; [lia|].
    unfold ret at 1.
    unfold bind at 1, gets at 1.
    destruct (Next s <? eMark s) eqn:C2; [lia|].
    unfold bind, ret, gets.
    rewrite C; reflexivity.
Qed.

Lemma uninput_writes_only_after_the_start_mark_witness :
  inv four_read /\
  Next four_read <= End_buf four_read /\
  Termchar four_read = 0 /\
  (sMark four_read + 1 < Next four_read ->
   exists s',
     ii_uninput x7a four_read = Ret tt s' /\ Next s' = Next four_read - 1 /\
     load (Start_buf s') (Next s') = Some x7a /\
     ii_look 1 s' = Ret (int_of_uchar x7a) s') /\
  (Next four_read = sMark four_read + 1 ->
   exists s',
     ii_uninput x7a four_read = Ret tt s' /\ Next s' = sMark four_read /\
     Start_buf s' = Start_buf four_read) /\
  (Next four_read = sMark four_read ->
   ii_uninput x7a four_read = Ret tt four_read).
Proof.
  assert (I : inv four_read) by concrete.
  assert (N : Next four_read <= End_buf four_read)
    by (vm_compute; intros; discriminate).
  assert (T : Termchar four_read = 0) by (vm_compute; reflexivity).
  split; [exact I|]. split; [exact N|]. split; [exact T|].
  exact (uninput_writes_only_after_the_start_mark x7a four_read I N T).
Defined.

(** ** What [ii_flush] returns *)

(** X15: the three results of [ii_flush] mean what its comment says.  It
    returns 0 exactly at the end of input (end of file read and nothing
    left in the buffer) and -1 exactly when a flush without force is due
    and the left edge is less than [MAXLEN] from the origin, in both cases
    with the state as it was; every other return is 1.  A forced flush
    never returns -1. *)
Theorem flush_results (force : bool) (s : state) (r : Z) (s' : state) :
  inv s ->
  ii_flush force s = Ret r s' ->
  (r = 0 \/ r = 1 \/ r = -1) /\
  (r = 0 <-> NO_MORE_CHARS s = true) /\
  (r = -1 <->
   force = false /\ Eof_read s = false /\ DANGER s <= Next s /\
   left_edge_of s < MAXLEN) /\
  (r <> 1 -> s' = s) /\
  (force = true -> r <> -1).
Proof.
  intros I H.
  pose proof (inv_length s I) as Hbuf.
  pose proof (left_edge_bounds s I) as Hedge.
  pose proof I as (_ & S & E & B & _).
  rewrite ii_flush_unfold in H.
  unfold NO_MORE_CHARS in *.
  destruct (Eof_read s) eqn:Eof; simpl in H |- *.
  - destruct (End_buf s <=? Next s) eqn:N; inversion H; subst;
      repeat split; intros; try lia; try discriminate; try reflexivity;
      try (right; left; reflexivity); try (left; reflexivity);
      match goal with
      | K : _ /\ _ |- _ => destruct K as (_ & K' & _); discriminate K'
      | _ => idtac
      end.
  - assert (One : forall edge s0,
               Z.of_nat (List.length (Start_buf s0)) = BUFSIZE ->
               0 <= edge <= BUFSIZE -> 0 <= End_buf s0 <= BUFSIZE ->
               compact edge s0 = Ret r s' -> r = 1).
    { intros edge s0 Hb He Hend C.
      apply (compact_ret edge s0 r s' Hb He Hend C). }
    destruct (DANGER s <=? Next s) eqn:D; simpl in H.
    + destruct (left_edge_of s <? MAXLEN) eqn:R.
      * destruct force.
        -- destruct (marks_reset_inv s I) as (I' & _ & _ & _).
           assert (r = 1) as ->
             by (apply (One (Next s) (marks_reset s));
                 [exact (inv_length _ I')|lia|cbn; lia|exact H]).
           repeat split; intros; try lia; try discriminate;
             try (right; left; reflexivity);
             match goal with
             | K : _ /\ _ |- _ => destruct K as (K' & _); discriminate K'
             end.
        -- inversion H; subst.
           repeat split; intros; try lia; try discriminate;
             try reflexivity; right; right; reflexivity.
      * assert (r = 1) as ->
          by (apply (One (left_edge_of s) s); [assumption|lia|lia|exact H]).
        repeat split; intros; try lia; try discriminate;
          try (right; left; reflexivity);
          match goal with
          | K : _ /\ _ |- _ => destruct K as (_ & _ & _ & K'); lia
          end.
    + destruct force; simpl in H.
      * destruct (left_edge_of s <? MAXLEN) eqn:R.
        -- destruct (marks_reset_inv s I) as (I' & _ & _ & _).
           assert (r = 1) as ->
             by (apply (One (Next s) (marks_reset s));
                 [exact (inv_length _ I')|lia|cbn; lia|exact H]).
           repeat split; intros; try lia; try discriminate;
             try (right; left; reflexivity);
             match goal with
             | K : _ /\ _ |- _ => destruct K as (K' & _); discriminate K'
             end.
        -- assert (r = 1) as ->
             by (apply (One (left_edge_of s) s);
                 [assumption|lia|lia|exact H]).
           repeat split; intros; try lia; try discriminate;
             try (right; left; reflexivity);
             match goal with
             | K : _ /\ _ |- _ => destruct K as (K' & _); discriminate K'
             end.
      * inversion H; subst.
        repeat split; intros; try lia; try discriminate; try reflexivity;
          try (right; left; reflexivity);
          match goal with
          | K : _ /\ _ |- _ => destruct K as (_ & _ & K' & _); lia
          end.
Qed.

Lemma flush_results_witness :
  inv seeded /\
  ii_flush false seeded = Ret 1 first_fill /\
  (1 = 0 \/ 1 = 1 \/ 1 = -1) /\
  (1 = 0 <-> NO_MORE_CHARS seeded = true) /\
  (1 = -1 <->
   false = false /\ Eof_read seeded = false /\ DANGER seeded <= Next seeded /\
   left_edge_of seeded < MAXLEN) /\
  (1 <> 1 -> first_fill = seeded) /\
  (false = true -> 1 <> -1).
Proof.
  assert (I : inv seeded) by concrete.
  assert (F : ii_flush false seeded = Ret 1 first_fill)
    by (vm_compute; reflexivity).
  split; [exact I|]. split; [exact F|].
  exact (flush_results false seeded 1 first_fill I F).
Defined.

(** ** Opening and closing *)

Lemma first_free_ge (n : nat) :
  forall k tab, 3 <= k -> 3 <= first_free n k tab.
Proof.
  induction n as [|n IH]; intros k tab Hk; simpl; [lia|].
  destruct (lookup_fd k tab); [apply IH; lia|lia].
Qed.

Lemma lookup_remove_other (k fd : Z) (tab : list (Z * list byte)) :
  k <> fd -> lookup_fd k (remove_fd fd tab) = lookup_fd k tab.
Proof.
  intros Hk; induction tab as [|[k0 d] t IH]; simpl; [reflexivity|].
  destruct (k0 =? fd) eqn:E.
  - rewrite IH. destruct (k0 =? k) eqn:E'; [lia|reflexivity].
  - simpl; rewrite IH; reflexivity.
Qed.

(** X16: [ii_newfile] returns -1 exactly when it was given the name of a
    file that cannot be opened, and then nothing has changed: the old
    stream stays open and current, with cursor, marks and line number.
    With the [NULL] name it returns standard input.  In no case is
    standard input closed or read from. *)
Theorem newfile_fails_cleanly_and_keeps_stdin
  (filename : option string) (s : state) (fd : Z) (s' : state) :
  ii_newfile filename s = Ret fd s' ->
  (fd = -1 <->
   exists path,
     filename = Some path /\ lookup_file path (os_files (Os s)) = None) /\
  (fd = -1 -> s' = s) /\
  (filename = None -> fd = STDIN) /\
  lookup_fd STDIN (os_fds (Os s')) = lookup_fd STDIN (os_fds (Os s)).
Proof.
  intros H.
  unfold ii_newfile, bind, gets, modify, ret in H.
  destruct filename as [path|].
  - unfold sys_open in H.
    destruct (lookup_file path (os_files (Os s))) as [d|] eqn:Lf.
    + pose proof (first_free_ge (List.length (os_fds (Os s))) 3
                    (os_fds (Os s)) ltac:(lia)) as Hge.
      set (new := first_free (List.length (os_fds (Os s))) 3 (os_fds (Os s)))
        in *.
      fields_everywhere.
      destruct (new =? -1) eqn:E; [lia|]. simpl in H.
      assert (Hfd : fd = new /\
                    lookup_fd STDIN (os_fds (Os s'))
                    = lookup_fd STDIN (os_fds (Os s))).
      { destruct (Input_file s =? STDIN) eqn:Old; simpl in H;
          inversion H; subst; fields; simpl.
        - destruct (new =? STDIN) eqn:E0; [unfold STDIN in *; lia|].
          split; reflexivity.
        - destruct (new =? Input_file s) eqn:E1.
          + split; [reflexivity|].
            apply lookup_remove_other; lia.
          + simpl. destruct (new =? STDIN) eqn:E0; [unfold STDIN in *; lia|].
            split; [reflexivity|].
            apply lookup_remove_other; lia. }
      destruct Hfd as [-> Hstd].
      split; [split; [lia|intros (p & Hp & Hn); inversion Hp; subst;
                           congruence]|].
      split; [lia|]. split; [discriminate|exact Hstd].
    + simpl in H; inversion H; subst.
      split; [split; [intros _; exists path; auto|reflexivity]|].
      split; [intros _; apply set_Os_same|].
      split; [discriminate|reflexivity].
  - simpl in H.
    assert (Hfd : fd = STDIN /\
                  lookup_fd STDIN (os_fds (Os s'))
                  = lookup_fd STDIN (os_fds (Os s))).
    { destruct (Input_file s =? STDIN) eqn:Old; simpl in H;
        inversion H; subst; fields; simpl.
      - split; reflexivity.
      - split; [reflexivity|].
        apply lookup_remove_other; lia. }
    destruct Hfd as [-> Hstd].
    split; [split; [unfold STDIN; lia|intros (p & Hp & _); discriminate]|].
    split; [unfold STDIN; lia|]. split; [reflexivity|exact Hstd].
Qed.

Lemma newfile_fails_cleanly_and_keeps_stdin_witness :
  ii_newfile (Some "absent") first_read = Ret (-1) first_read /\
  (-1 = -1 <->
   exists path,
     Some "absent" = Some path /\
     lookup_file path (os_files (Os first_read)) = None) /\
  (-1 = -1 -> first_read = first_read) /\
  (Some "absent" = None -> -1 = STDIN) /\
  lookup_fd STDIN (os_fds (Os first_read))
  = lookup_fd STDIN (os_fds (Os first_read)).
Proof.
  assert (N : ii_newfile (Some "absent") first_read = Ret (-1) first_read)
    by (vm_compute; reflexivity).
  split; [exact N|].
  exact (newfile_fails_cleanly_and_keeps_stdin
           (Some "absent") first_read (-1) first_read N).
Defined.

(** ** Lexemes across a flush *)




(** ** After a forced flush *)

(** X18: a forced flush that has to give up the saved lexemes (left edge
    less than [MAXLEN] from the origin) sets a previous-lexeme mark even if
    none was set before: it returns with [sMark], [eMark], [pMark] and the
    cursor all at the origin of the buffer and an empty previous lexeme on
    the current line.  While [pMark] stays at the origin, every flush
    without force that is due refuses with -1. *)
Theorem forced_flush_pins_the_previous_mark (s : state) (r : Z) (s' : state) :
  inv s ->
  Eof_read s = false ->
  left_edge_of s < MAXLEN ->
  ii_flush true s = Ret r s' ->
  r = 1 /\
  pMark s' = Some 0 /\ sMark s' = 0 /\ eMark s' = 0 /\ Next s' = 0 /\
  pLength s' = 0 /\ pLineno s' = Lineno s /\ Mline s' = Lineno s /\
  Lineno s' = Lineno s /\
  (forall t,
      pMark t = Some 0 -> 0 <= sMark t -> Eof_read t = false ->
      DANGER t <= Next t ->
      ii_flush false t = Ret (-1) t).
Proof.
  intros I Eof Room H.
  rewrite ii_flush_unfold in H.
  unfold NO_MORE_CHARS in H; rewrite Eof in H; simpl in H.
  rewrite orb_true_r in H.
  destruct (left_edge_of s <? MAXLEN) eqn:R; [|lia].
  destruct (marks_reset_inv s I) as (I' & _ & _ & _).
  pose proof I as (_ & S & E & B & _).
  destruct (compact_ret (Next s) (marks_reset s) r s' (inv_length _ I')
              ltac:(lia) ltac:(cbn; lia) H)
    as (-> & _ & d & got & _ & _ & _ & _ & _ & HN & HS & HE & HP & HL & HM
        & HpL & HpLen & _).
  cbn in HN, HS, HE, HP, HL, HM, HpL, HpLen.
  split; [reflexivity|].
  split; [rewrite HP; f_equal; lia|].
  split; [lia|]. split; [lia|]. split; [lia|].
  split; [lia|]. split; [exact HpL|]. split; [exact HM|].
  split; [exact HL|].
  intros t Pt St Et Dt.
  rewrite ii_flush_unfold.
  unfold NO_MORE_CHARS; rewrite Et; simpl.
  destruct (DANGER t <=? Next t) eqn:D; [|lia].
  simpl.
  assert (L0 : left_edge_of t = 0)
    by (unfold left_edge_of; rewrite Pt; lia).
  rewrite L0.
  reflexivity.
Qed.

Lemma forced_flush_pins_the_previous_mark_witness :
  inv deep /\
  Eof_read deep = false /\
  left_edge_of deep < MAXLEN /\
  ii_flush true deep = Ret 1 deep_flushed /\
  1 = 1 /\
  pMark deep_flushed = Some 0 /\ sMark deep_flushed = 0 /\
  eMark deep_flushed = 0 /\ Next deep_flushed = 0 /\
  pLength deep_flushed = 0 /\ pLineno deep_flushed = Lineno deep /\
  Mline deep_flushed = Lineno deep /\
  Lineno deep_flushed = Lineno deep /\
  (forall t,
      pMark t = Some 0 -> 0 <= sMark t -> Eof_read t = false ->
      DANGER t <= Next t ->
      ii_flush false t = Ret (-1) t).
Proof.
  assert (I : inv deep) by concrete.
  assert (E : Eof_read deep = false) by (vm_compute; reflexivity).
  assert (R : left_edge_of deep < MAXLEN) by (vm_compute; reflexivity).
  assert (F : ii_flush true deep = Ret 1 deep_flushed)
    by (vm_compute; reflexivity).
  split; [exact I|]. split; [exact E|]. split; [exact R|]. split; [exact F|].
  exact (forced_flush_pins_the_previous_mark deep 1 deep_flushed I E R F).
Defined.

(** ** The first call and the bytes that follow *)

Lemma ii_fillbuf_got (c : Z) (s : state) (got : Z) (s' : state)
      (d : list byte) :
  0 <= c <= BUFSIZE ->
  lookup_fd (Input_file s) (os_fds (Os s)) = Some d ->
  ii_fillbuf c s = Ret got s' ->
  got <> 0 ->
  got = Z.min (Z.quot (END - c) MAXLEN * MAXLEN) (Z.of_nat (List.length d)) /\
  lookup_fd (Input_file s') (os_fds (Os s')) = Some (skipn (Z.to_nat got) d).
Proof.
  intros Hc Lk H Hgot.
  destruct (need_bounds c Hc) as (Hsz & Hneed & _).
  unfold ii_fillbuf in H.
  rewrite Hsz in H.
  set (need := Z.quot (END - c) MAXLEN * MAXLEN) in *.
  destruct (need <? 0) eqn:E1; [lia|].
  destruct (need =? 0) eqn:E2.
  { unfold ret in H; inversion H; subst; lia. }
  unfold bind at 1, gets at 1 in H.
  unfold bind at 1, read, sys_read in H.
  rewrite Lk in H.
  set (k := Z.to_nat (Z.min need (Z.of_nat (List.length d)))) in *.
  assert (Hk : Z.of_nat (List.length (firstn k d))
               = Z.min need (Z.of_nat (List.length d)))
    by (rewrite length_firstn; subst k; lia).
  rewrite Hk in H.
  destruct (store_block (Start_buf s) c (firstn k d)) as [buf'|];
    [|discriminate].
  destruct (Z.min need (Z.of_nat (List.length d)) =? -1) eqn:E3; [lia|].
  unfold bind, modify, ret in H.
  destruct (Z.min need (Z.of_nat (List.length d)) =? 0) eqn:E4;
    inversion H; subst got s'; [lia|].
  split; [reflexivity|].
  fields; simpl. rewrite Z.eqb_refl; reflexivity.
Qed.

Lemma compact_extent (edge : Z) (s : state) (r : Z) (s' : state)
      (d : list byte) :
  Z.of_nat (List.length (Start_buf s)) = BUFSIZE ->
  0 <= edge <= End_buf s -> End_buf s <= BUFSIZE ->
  lookup_fd (Input_file s) (os_fds (Os s)) = Some d ->
  compact edge s = Ret r s' ->
  exists got,
    got = Z.min (Z.quot (END - (End_buf s - edge)) MAXLEN * MAXLEN)
            (Z.of_nat (List.length d)) /\
    End_buf s' = End_buf s - edge + got /\
    lookup_fd (Input_file s') (os_fds (Os s')) = Some (skipn (Z.to_nat got) d).
Proof.
  intros Hbuf Hedge Hend Lk H.
  unfold compact in H.
  unfold bind at 1, gets at 1 in H.
  unfold bind at 1, memcpy in H.
  destruct (memcpy_buf 0 edge (End_buf s - edge) (Start_buf s))
    as [buf1|]; [|discriminate].
  unfold bind at 1 in H.
  destruct (ii_fillbuf (0 + (End_buf s - edge)) (set_Start_buf buf1 s))
    as [got s2| |] eqn:F; try discriminate.
  unfold bind at 1 in H.
  destruct (got =? 0) eqn:G; [discriminate|].
  pose proof F as F'.
  apply ii_fillbuf_some in F' as (d' & buf2 & _ & _ & _ & _ & _ & Es2);
    [|lia|lia].
  destruct (ii_fillbuf_got (0 + (End_buf s - edge)) (set_Start_buf buf1 s)
              got s2 d ltac:(lia) Lk F ltac:(lia)) as [Hg Hl].
  exists got.
  replace (0 + (End_buf s - edge)) with (End_buf s - edge) in Hg by lia.
  split; [exact Hg|].
  unfold ret, bind, modify in H.
  rewrite Es2 in H, Hl.
  destruct (pMark s) eqn:P; cbn in H; rewrite ?P in H; cbn in H;
    inversion H; subst s'; fields; (split; [lia|exact Hl]).
Qed.

Lemma seed_newline_run (s : state) :
  Z.of_nat (List.length (Start_buf s)) = BUFSIZE ->
  seed_newline s
  = Ret tt
      (set_been_called true
         (set_Mline (Mline s - 1)
            (set_Lineno (Lineno s - 1)
               (set_Start_buf (upd (Start_buf s) (Z.to_nat (END - 1)) NL)
                  (set_Next (END - 1)
                     (set_sMark (END - 1) (set_eMark (END - 1) s))))))).
Proof.
  intros Hbuf.
  unfold seed_newline, bind, modify, assign; fields.
  rewrite store_inside by (constants; lia).
  reflexivity.
Qed.

(** The state the first [ii_advance] of a process leaves on a stream that
    is not empty. *)
Lemma first_advance_state (input : list byte) (files : list (string * list byte)) :
  input <> [] ->
  exists s',
    ii_advance (boot input files) = Ret 10 s' /\
    inv s' /\ been_called s' = true /\ Eof_read s' = false /\
    Next s' = 1 /\ sMark s' = 0 /\ eMark s' = 0 /\ pMark s' = None /\
    Lineno s' = 1 /\
    End_buf s' = 1 + Z.min (3 * MAXLEN) (Z.of_nat (List.length input)) /\
    load (Start_buf s') 0 = Some NL /\
    (forall j, Z.of_nat j < Z.min (3 * MAXLEN) (Z.of_nat (List.length input)) ->
               load (Start_buf s') (1 + Z.of_nat j) = nth_error input j) /\
    lookup_fd STDIN (os_fds (Os s'))
    = Some (skipn (Z.to_nat (Z.min (3 * MAXLEN)
                               (Z.of_nat (List.length input)))) input).
Proof.
  intros Hin.
  set (s0 := boot input files).
  pose proof (initial_inv (mkOs files [(STDIN, input)])) as I0.
  fold (boot input files) in I0; fold s0 in I0.
  pose proof (inv_length s0 I0) as Hbuf0.
  assert (K : keeps ii_advance) by exact keeps_advance.
  unfold ii_advance, bind at 1, gets at 1.
  change (been_called s0) with false; simpl negb; cbv iota.
  unfold bind at 1.
  rewrite (seed_newline_run s0 Hbuf0).
  set (s1 := set_been_called true _).
  assert (Hbuf1 : Z.of_nat (List.length (Start_buf s1)) = BUFSIZE)
    by (subst s1; fields; rewrite upd_length; exact Hbuf0).
  assert (L1 : load (Start_buf s1) (END - 1) = Some NL).
  { subst s1; fields.
    apply (load_store_same (Start_buf s0) _ (END - 1) NL).
    apply store_inside; constants; lia. }
  assert (Lk : lookup_fd (Input_file s1) (os_fds (Os s1)) = Some input)
    by reflexivity.
  assert (E1 : End_buf s1 = END) by reflexivity.
  assert (N1 : Next s1 = END - 1) by reflexivity.
  rewrite fetch_unfold.
  change (NO_MORE_CHARS s1) with false; cbv iota.
  change (Eof_read s1) with false; cbv iota.
  rewrite ii_flush_unfold.
  change (NO_MORE_CHARS s1) with false; cbv iota.
  change (Eof_read s1) with false; cbv iota.
  change (left_edge_of s1) with (END - 1).
  change (DANGER s1) with (END - MAXLOOK).
  change (Next s1) with (END - 1).
  destruct (END - MAXLOOK <=? END - 1) eqn:D; [|constants; lia].
  destruct (END - 1 <? MAXLEN) eqn:R; [constants; lia|].
  simpl orb; cbv iota.
  destruct (compact_total (END - 1) s1 input Hbuf1) as [s2 C];
    try assumption; try (rewrite ?E1; constants; lia).
  rewrite C.
  destruct (compact_ret (END - 1) s1 1 s2 Hbuf1 ltac:(constants; lia)
              ltac:(rewrite E1; constants; lia) C)
    as (_ & _ & d & got & Lk' & Hgot & _ & HE & _ & HN & HS & HEm & HP & HL
        & _ & _ & _ & _ & HEof & HC & HI & Hbuf2 & Keep & New).
  rewrite Lk in Lk'; inversion Lk'; subst d.
  destruct (compact_extent (END - 1) s1 1 s2 input Hbuf1
              ltac:(rewrite E1; constants; lia)
              ltac:(rewrite E1; constants; lia) Lk C)
    as (got' & Hg' & HE' & Lk2).
  assert (Eg : got' = got) by lia.
  rewrite Eg in Hg', Lk2; clear Eg HE'.
  assert (Hneed : Z.quot (END - (End_buf s1 - (END - 1))) MAXLEN * MAXLEN
                  = 3 * MAXLEN)
    by (rewrite E1; vm_compute; reflexivity).
  rewrite Hneed in Hg'.
  assert (L2 : load (Start_buf s2) (Next s2) = Some NL).
  { rewrite HN, N1.
    replace (END - 1 - (END - 1)) with (END - 1 - (END - 1)) by lia.
    rewrite (Keep (END - 1)) by (rewrite E1; lia).
    exact L1. }
  cbv iota. change (1 <? 0) with false; cbv iota.
  rewrite (consume_spec s2 NL L2).
  change (is_newline NL) with true; cbv iota.
  change (int_of_uchar NL) with 10.
  eexists; split; [reflexivity|].
  assert (N2 : Next s2 = 0) by (rewrite HN, N1; lia).
  assert (S2 : sMark s2 = 0) by (rewrite HS; change (sMark s1) with (END - 1); lia).
  assert (M2 : eMark s2 = 0) by (rewrite HEm; change (eMark s1) with (END - 1); lia).
  assert (E2 : End_buf s2 = 1 + got) by (rewrite HE, E1; lia).
  assert (Hm : 0 < MAXLEN) by (constants; lia).
  split.
  { unfold inv; fields.
    split; [rewrite <- (Nat2Z.id (List.length (Start_buf s2))), Hbuf2;
            reflexivity|].
    rewrite N2, S2, M2, E2, HP.
    repeat match goal with |- _ /\ _ => split end; try lia;
      try (constants; lia).
    intros p Hp; discriminate Hp. }
  fields.
  split; [rewrite HC; reflexivity|].
  split; [rewrite HEof; reflexivity|].
  split; [lia|]. split; [exact S2|]. split; [exact M2|].
  split; [rewrite HP; reflexivity|].
  split; [rewrite HL; reflexivity|].
  split; [rewrite E2, Hg'; reflexivity|].
  split; [rewrite <- N2; exact L2|].
  split.
  - intros j Hj.
    rewrite <- (New j) by lia.
    f_equal; rewrite E1; lia.
  - rewrite <- Hg'. change STDIN with (Input_file s1).
    rewrite <- HI; exact Lk2.
Qed.

(** X19: on a stream that is not empty the first [ii_advance] of a process
    returns the newline it has pushed, with the line number at 1, and has
    loaded the buffer: the newline sits at the origin, followed by the
    first [min (3 * MAXLEN) n] bytes of the [n]-byte stream; [End_buf] is
    just behind them, the rest of the stream is still unread, and [Eof_read]
    is off even when the whole stream has been loaded. *)
Theorem first_advance_loads_the_stream
  (input : list byte) (files : list (string * list byte)) :
  input <> [] ->
  exists s',
    ii_advance (boot input files) = Ret 10 s' /\
    Lineno s' = 1 /\ Next s' = 1 /\ sMark s' = 0 /\ eMark s' = 0 /\
    End_buf s' = 1 + Z.min (3 * MAXLEN) (Z.of_nat (List.length input)) /\
    Eof_read s' = false /\
    window (Start_buf s') 0
      (S (Z.to_nat (Z.min (3 * MAXLEN) (Z.of_nat (List.length input)))))
    = NL :: firstn (Z.to_nat (Z.min (3 * MAXLEN)
                                (Z.of_nat (List.length input)))) input /\
    lookup_fd STDIN (os_fds (Os s'))
    = Some (skipn (Z.to_nat (Z.min (3 * MAXLEN)
                               (Z.of_nat (List.length input)))) input).
Proof.
  intros Hin.
  destruct (first_advance_state input files Hin)
    as (s' & A & I & _ & Eof & HN & HS & HE & _ & HL & HEnd & L0 & Ld & Lk).
  exists s'.
  split; [exact A|]. split; [exact HL|]. split; [exact HN|].
  split; [exact HS|]. split; [exact HE|]. split; [exact HEnd|].
  split; [exact Eof|]. split; [|exact Lk].
  set (g := Z.min (3 * MAXLEN) (Z.of_nat (List.length input))) in *.
  assert (Hg : 0 <= g <= Z.of_nat (List.length input)) by (constants; lia).
  apply window_eq.
  - simpl; rewrite length_firstn; lia.
  - intros [|i] Hi.
    + exact L0.
    + replace (0 + Z.of_nat (S i)) with (1 + Z.of_nat i) by lia.
      rewrite Ld by lia.
      simpl; rewrite nth_error_firstn.
      destruct (Nat.ltb i (Z.to_nat g)) eqn:E; [reflexivity|].
      apply Nat.ltb_ge in E; lia.
Qed.

Lemma first_advance_loads_the_stream_witness :
  ab_cd <> [] /\
  exists s',
    ii_advance (boot ab_cd []) = Ret 10 s' /\
    Lineno s' = 1 /\ Next s' = 1 /\ sMark s' = 0 /\ eMark s' = 0 /\
    End_buf s' = 1 + Z.min (3 * MAXLEN) (Z.of_nat (List.length ab_cd)) /\
    Eof_read s' = false /\
    window (Start_buf s') 0
      (S (Z.to_nat (Z.min (3 * MAXLEN) (Z.of_nat (List.length ab_cd)))))
    = NL :: firstn (Z.to_nat (Z.min (3 * MAXLEN)
                                (Z.of_nat (List.length ab_cd)))) ab_cd /\
    lookup_fd STDIN (os_fds (Os s'))
    = Some (skipn (Z.to_nat (Z.min (3 * MAXLEN)
                               (Z.of_nat (List.length ab_cd)))) ab_cd).
Proof.
  assert (H : ab_cd <> []) by discriminate.
  split; [exact H|].
  exact (first_advance_loads_the_stream ab_cd [] H).
Defined.

(** X20: a scanner that only calls [ii_advance] gets the pushed newline and
    then the bytes of the stream in order, as long as [MAXLOOK] loaded
    bytes remain ahead of the cursor: for [j + MAXLOOK] at most the number
    of bytes loaded, [j + 1] calls return the newline and the first [j]
    bytes, and the line number is 1 plus the newlines among them.  When
    exactly [MAXLOOK] loaded bytes remain, the next call returns -1 and
    changes nothing, the start mark still being at the origin. *)
Theorem scanner_sees_the_stream_in_order
  (input : list byte) (files : list (string * list byte)) (j : nat) :
  Z.of_nat j + MAXLOOK <= Z.min (3 * MAXLEN) (Z.of_nat (List.length input)) ->
  exists s',
    advances (S j) (boot input files)
    = Ret (10 :: map int_of_uchar (firstn j input)) s' /\
    Next s' = 1 + Z.of_nat j /\
    Lineno s' = 1 + count is_newline (firstn j input) /\
    (Z.of_nat j + MAXLOOK
     = Z.min (3 * MAXLEN) (Z.of_nat (List.length input)) ->
     ii_advance s' = Ret (-1) s').
Proof.
  intros Hj.
  assert (Hin : input <> []).
  { intros ->; simpl in Hj; constants; lia. }
  destruct (first_advance_state input files Hin)
    as (s1 & A & I & Hc & Eof & HN & HS & HE & HP & HL & HEnd & L0 & Ld & Lk).
  pose proof (inv_length s1 I) as Hbuf.
  set (g := Z.min (3 * MAXLEN) (Z.of_nat (List.length input))) in *.
  assert (Hg : 0 <= g <= Z.of_nat (List.length input) /\ g <= 3 * MAXLEN)
    by (constants; lia).
  assert (Hm : 0 < MAXLOOK) by (constants; lia).
  pose proof (advances_quiet j s1 Hc Hbuf ltac:(lia) ltac:(lia)
                ltac:(constants; lia) ltac:(right; unfold DANGER; lia)) as Q.
  assert (W : window (Start_buf s1) (Next s1) j = firstn j input).
  { rewrite HN; apply window_eq.
    - rewrite length_firstn; lia.
    - intros i Hi.
      rewrite Ld by lia.
      rewrite nth_error_firstn.
      destruct (Nat.ltb i j) eqn:E; [reflexivity|].
      apply Nat.ltb_ge in E; lia. }
  rewrite W in Q.
  set (s2 := set_Lineno (Lineno s1 + count is_newline (firstn j input))
               (set_Next (Next s1 + Z.of_nat j) s1)) in *.
  cbn [advances]. unfold bind at 1; rewrite A.
  unfold bind at 1; rewrite Q.
  unfold ret.
  exists s2; split; [reflexivity|].
  split; [subst s2; fields; lia|].
  split; [subst s2; fields; lia|].
  intros Hex.
  assert (C2 : been_called s2 = true) by exact Hc.
  assert (E2 : Eof_read s2 = false) by exact Eof.
  assert (NM : NO_MORE_CHARS s2 = false)
    by (unfold NO_MORE_CHARS; rewrite E2; reflexivity).
  assert (D : (DANGER s2 <=? Next s2) = true).
  { unfold DANGER; subst s2; fields. apply Z.leb_le; lia. }
  assert (L : left_edge_of s2 = 0).
  { unfold left_edge_of; subst s2; fields. rewrite HP; exact HS. }
  rewrite (ii_advance_called s2 C2), fetch_unfold, NM, E2.
  rewrite ii_flush_unfold, NM, E2, orb_false_r, D, L.
  reflexivity.
Qed.

Lemma scanner_sees_the_stream_in_order_witness :
  Z.of_nat 3056 + MAXLOOK
  <= Z.min (3 * MAXLEN) (Z.of_nat (List.length long_text)) /\
  exists s',
    advances (S 3056) (boot long_text [])
    = Ret (10 :: map int_of_uchar (firstn 3056 long_text)) s' /\
    Next s' = 1 + Z.of_nat 3056 /\
    Lineno s' = 1 + count is_newline (firstn 3056 long_text) /\
    (Z.of_nat 3056 + MAXLOOK
     = Z.min (3 * MAXLEN) (Z.of_nat (List.length long_text)) ->
     ii_advance s' = Ret (-1) s').
Proof.
  assert (H : Z.of_nat 3056 + MAXLOOK
              <= Z.min (3 * MAXLEN) (Z.of_nat (List.length long_text)))
    by (vm_compute; intros; discriminate).
  split; [exact H|].
  exact (scanner_sees_the_stream_in_order long_text [] 3056 H).
Defined.
